(** * DataAccessExample_V1: retrieval and merge of NWM streamflow series

    A shallow embedding of the notebook [DataAccessExample_V1.ipynb]:
    the per-file chain [load_remote_json], [load_remote_ds], [select_flow],
    [select_time], [process_file]; the construction of the [files] list
    from [filenamelist.txt]; the [joblib] dispatch and the final
    [sorted] / [Streamflow] / [Timestamp] cell.

    The notebook calls four outside libraries (fsspec, ujson, xarray,
    joblib).  Opening a URL, decoding JSON and building the dataset from a
    reference header are kept abstract (Section variables that may return
    any exception); label selection, the worker pool's gathering and
    [sorted] are modelled by what they compute. *)

From Stdlib Require Import List ZArith Lia Bool String Ascii NArith.
From Stdlib Require Import Permutation Sorted.
From Stdlib Require Import Floats.PrimFloat.
Import ListNotations.

Set Implicit Arguments.
(* A decimal literal such as 1.1 denotes the closest binary64 value, as it
   does in Python. *)
Set Warnings "-inexact-float".
Local Open Scope Z_scope.

(** ** Exceptions and results *)

(** The Python exceptions the notebook can meet.  The notebook defines no
    exception class of its own: every failure is the exception raised by
    the library call that failed. *)
Inductive exn : Type :=
  | OSError            (* fsspec.open: the location cannot be opened *)
  | JSONDecodeError    (* ujson.load: the bytes are not JSON *)
  | DatasetOpenError   (* xr.open_dataset: the header cannot be resolved *)
  | InvalidIndexError  (* pandas: label lookup on a non-unique index *)
  | KeyError           (* xarray .sel: a requested label is not in the index *)
  | IndexError.        (* numpy: x[1][0] on an array of length 0 *)

Inductive result (A : Type) : Type :=
  | Ok (a : A)
  | Raise (e : exn).
Arguments Raise {A} e.

Definition bind {A B : Type} (m : result A) (k : A -> result B) : result B :=
  match m with
  | Ok a => k a
  | Raise e => Raise e
  end.

Declare Scope py_scope.
Delimit Scope py_scope with py.
Notation "x <- m ;; k" := (bind m (fun x => k))
  (at level 61, m at next level, right associativity) : py_scope.
Local Open Scope py_scope.

(** Evaluation of a list of computations from left to right, stopping at
    the first exception. *)
Fixpoint sequence {A : Type} (ms : list (result A)) : result (list A) :=
  match ms with
  | [] => Ok []
  | m :: ms' => a <- m ;; l <- sequence ms' ;; Ok (a :: l)
  end.

(** ** Data model *)

(** A feature identifier (an integer of the [feature_id] coordinate). *)
Definition FeatureID := Z.

(** A value of the [time] coordinate that is a proper instant: a
    [numpy.datetime64] other than NaT, that is a signed count of
    nanoseconds since the epoch.  Time values that may be NaT are
    [datetime64] below, with their own model of the assembly. *)
Definition Timestamp_t := Z.

(** A streamflow reading (a float64 of [numpy]); the notebook only moves
    these values, it never computes with them. *)
Definition Flow := float.

(** The part of an [xarray.Dataset] the notebook reads: the [streamflow]
    variable along its [feature_id] dimension, each position carrying its
    coordinate label and its value, and the values of the [time]
    coordinate. *)
Record Dataset : Type := mkDataset {
  streamflow : list (FeatureID * Flow);
  time : list Timestamp_t
}.

(** The labels of the [feature_id] coordinate, in storage order. *)
Definition feature_id_coord (ds : Dataset) : list FeatureID :=
  map fst (streamflow ds).

(** What [process_file] returns: [(streamflow_value, time_value)]. *)
Definition ExtractionResult : Type := (list Flow * list Timestamp_t)%type.

(** ** xarray's label selection *)

(** [is_unique index]: no label occurs twice (pandas' [Index.is_unique]). *)
Fixpoint is_unique (index : list FeatureID) : bool :=
  match index with
  | [] => true
  | x :: t => negb (existsb (Z.eqb x) t) && is_unique t
  end.

(** The value stored at the position of [label], if [label] is in the
    index. *)
Fixpoint lookup_label (da : list (FeatureID * Flow)) (label : FeatureID)
  : option Flow :=
  match da with
  | [] => None
  | (l, v) :: t => if Z.eqb l label then Some v else lookup_label t label
  end.

(** The values at the requested labels, in the order requested;
    [None] when a label is absent. *)
Fixpoint lookup_labels (da : list (FeatureID * Flow)) (labels : list FeatureID)
  : option (list Flow) :=
  match labels with
  | [] => Some []
  | l :: ls =>
      match lookup_label da l, lookup_labels da ls with
      | Some v, Some vs => Some (v :: vs)
      | _, _ => None
      end
  end.

(** [da.sel(feature_id=labels)] for a list of labels: pandas'
    [Index.get_indexer] refuses a non-unique index, then xarray raises
    [KeyError] ("not all values found in index") if any label is not
    found; otherwise the values come back in the order of [labels]. *)
Definition sel (da : list (FeatureID * Flow)) (labels : list FeatureID)
  : result (list Flow) :=
  if is_unique (map fst da) then
    match lookup_labels da labels with
    | Some vs => Ok vs
    | None => Raise KeyError
    end
  else Raise InvalidIndexError.

(** ** The per-file functions of the notebook *)

(** [select_flow(ds, feature_id)]:
    [cords = ds.streamflow.sel(feature_id=feature_id); return cords.values] *)
Definition select_flow (ds : Dataset) (feature_id : list FeatureID)
  : result (list Flow) :=
  cords <- sel (streamflow ds) feature_id ;;
  Ok cords.

(** [select_time(ds)]: [dstime = ds.time; return dstime.values] *)
Definition select_time (ds : Dataset) : list Timestamp_t :=
  time ds.

(** ** Gathering and assembling *)

(** [joblib.Parallel()(...)] with the threading backend: the list of the
    tasks' return values, in the order of the tasks; an exception raised by
    a task is raised again in the caller and no list is returned.  When
    two or more tasks fail, which of their exceptions the pool raises
    depends on the scheduling; the model takes the first in task order,
    and no statement below relies on that choice. *)
Definition Parallel {A : Type} (tasks : list (result A)) : result (list A) :=
  sequence tasks.

(** The sort key [lambda x: x[1][0]]: the first element of the result's
    timestamp array; indexing an empty array raises [IndexError]. *)
Definition sort_key (x : ExtractionResult) : result Timestamp_t :=
  match snd x with
  | [] => Raise IndexError
  | t :: _ => Ok t
  end.

(** [sorted] computes the key of every element once, before it compares
    any. *)
Definition decorate (l : list ExtractionResult)
  : result (list (Timestamp_t * ExtractionResult)) :=
  sequence (map (fun x => k <- sort_key x ;; Ok (k, x)) l).

Section StableSort.
Variable A : Type.

(** Insertion in front of the elements whose key is not smaller. *)
Fixpoint insert_keyed (k : Z) (x : A) (l : list (Z * A)) : list (Z * A) :=
  match l with
  | [] => [(k, x)]
  | (k', y) :: t =>
      if k <=? k' then (k, x) :: (k', y) :: t
      else (k', y) :: insert_keyed k x t
  end.

(** A stable sort by key: elements of equal key keep their order. *)
Fixpoint sort_keyed (l : list (Z * A)) : list (Z * A) :=
  match l with
  | [] => []
  | (k, x) :: t => insert_keyed k x (sort_keyed t)
  end.

(** The elements of key [k], in their order of appearance. *)
Definition with_key (k : Z) (l : list (Z * A)) : list (Z * A) :=
  filter (fun p => fst p =? k) l.

Definition keys_sorted (l : list (Z * A)) : Prop :=
  StronglySorted Z.le (map fst l).
End StableSort.

(** The first timestamp of a result that has one, and the result paired
    with it. *)
Definition first_time (x : ExtractionResult) : Timestamp_t := hd 0 (snd x).
Definition keyed (x : ExtractionResult) : Timestamp_t * ExtractionResult :=
  (first_time x, x).

(** [sorted(result_values, key=lambda x: x[1][0])].  Python's sort is
    stable, and a stable sort has one possible outcome
    ([stable_sort_unique] below), which the insertion sort computes. *)
Definition sorted (result_values : list ExtractionResult)
  : result (list ExtractionResult) :=
  keyed <- decorate result_values ;;
  Ok (map snd (sort_keyed keyed)).

(** The last three lines of the dispatch cell:
    [result_values = sorted(result_values, key=lambda x: x[1][0])],
    [Streamflow = [item[0] for item in result_values]],
    [Timestamp = [item[1] for item in result_values]]. *)
Definition assemble (result_values : list ExtractionResult)
  : result (list (list Flow) * list (list Timestamp_t)) :=
  result_values' <- sorted result_values ;;
  let Streamflow := map fst result_values' in
  let Timestamp := map snd result_values' in
  Ok (Streamflow, Timestamp).

(** The line [plt.plot(Streamflow, label=[...feature_ids])] draws one line
    per column of [Streamflow]: column [k] is the series of the [k]-th
    requested feature.  This describes the plot of at least one row with
    at least two columns; of an empty [Streamflow] or a single column
    matplotlib draws one line that carries the whole list as its
    label. *)
Definition column {A : Type} (k : nat) (rows : list (list A)) : list A :=
  flat_map (fun row => match nth_error row k with
                       | Some v => [v]
                       | None => []
                       end) rows.

Definition plotted_series (feature_ids : list FeatureID)
  (Streamflow : list (list Flow)) : list (FeatureID * list Flow) :=
  map (fun p => (snd p, column (fst p) Streamflow))
      (combine (seq 0 (List.length feature_ids)) feature_ids).

Section Pipeline.
(** The outside collaborators. *)
Variable Bytes : Type.
Variable Json : Type.
(** [fsspec.open(file_url)] and entering the [with] block. *)
Variable fsspec_open : string -> result Bytes.
(** [ujson.load(f)]. *)
Variable ujson_load : Bytes -> result Json.
(** [xr.open_dataset("reference://", engine="zarr", backend_kwargs=...)]
    with the header as the reference file system's ["fo"]. *)
Variable xr_open_dataset : Json -> result Dataset.

Definition load_remote_json (file_url : string) : result Json :=
  f <- fsspec_open file_url ;;
  ujson_load f.

Definition load_remote_ds (json_obj : Json) : result Dataset :=
  xr_open_dataset json_obj.

Definition process_file (file_url : string) (feature_id : list FeatureID)
  : result ExtractionResult :=
  json_obj <- load_remote_json file_url ;;
  ds <- load_remote_ds json_obj ;;
  streamflow_value <- select_flow ds feature_id ;;
  let time_value := select_time ds in
  Ok (streamflow_value, time_value).

(** The [with joblib.parallel_backend(...)] block: one [process_file]
    task per entry of [files]. *)
Definition dispatch (files : list string) (feature_ids : list FeatureID)
  : result (list ExtractionResult) :=
  Parallel (map (fun file_url => process_file file_url feature_ids) files).

(** The whole dispatch cell. *)
Definition pipeline (files : list string) (feature_ids : list FeatureID)
  : result (list (list Flow) * list (list Timestamp_t)) :=
  result_values <- dispatch files feature_ids ;;
  assemble result_values.
End Pipeline.

(** ** The assembly on timestamps that may be NaT

    A decoded time coordinate can hold [numpy.datetime64("NaT")].  Every
    comparison with NaT answers False, so the sort key is then not
    totally ordered and the outcome of [sorted] is whatever the
    comparisons made by [list.sort] produce.  This layer models the last
    three lines of the dispatch cell on such values; the definitions
    above are its restriction to proper instants
    ([assemble64_with_instants] below). *)

Inductive datetime64 : Type :=
  | NaT
  | Instant (ns : Timestamp_t).

(** [a < b] and [a <= b] on [numpy.datetime64]. *)
Definition dt_ltb (a b : datetime64) : bool :=
  match a, b with
  | Instant x, Instant y => x <? y
  | _, _ => false
  end.

Definition dt_leb (a b : datetime64) : bool :=
  match a, b with
  | Instant x, Instant y => x <=? y
  | _, _ => false
  end.

(** [(streamflow_value, time_value)] with a time array that may hold
    NaT. *)
Definition ExtractionResult64 : Type := (list Flow * list datetime64)%type.

Definition with_instants (x : ExtractionResult) : ExtractionResult64 :=
  (fst x, map Instant (snd x)).

(** The sort key [lambda x: x[1][0]]. *)
Definition sort_key64 (x : ExtractionResult64) : result datetime64 :=
  match snd x with
  | [] => Raise IndexError
  | t :: _ => Ok t
  end.

Definition decorate64 (l : list ExtractionResult64)
  : result (list (datetime64 * ExtractionResult64)) :=
  sequence (map (fun x => k <- sort_key64 x ;; Ok (k, x)) l).

(** [list.sort] of CPython 3.10 (the notebook's kernel) on fewer than 64
    elements: [count_run] finds the run the list starts with, a strictly
    descending run is reversed, and [binarysort] inserts the remaining
    elements one by one at the place a binary search gives.  Only
    [lt] is ever asked. *)
Section ListSort.
Variables (K A : Type) (lt : K -> K -> bool).

(** [count_run], ascending case: how many more elements continue the run
    whose last key is [prev] (the run stops at the first [lt k prev]). *)
Fixpoint ascending_run (prev : K) (l : list (K * A)) : nat :=
  match l with
  | [] => 0%nat
  | (k, _) :: t => if lt k prev then 0%nat else S (ascending_run k t)
  end.

(** [count_run], descending case: the run goes on while [lt k prev]. *)
Fixpoint descending_run (prev : K) (l : list (K * A)) : nat :=
  match l with
  | [] => 0%nat
  | (k, _) :: t => if lt k prev then S (descending_run k t) else 0%nat
  end.

(** [count_run]: the length of the run at the start of the list and
    whether it is descending. *)
Definition count_run (l : list (K * A)) : nat * bool :=
  match l with
  | [] => (0%nat, false)
  | (k0, _) :: rest =>
      match rest with
      | [] => (1%nat, false)
      | (k1, _) :: t =>
          if lt k1 k0 then (S (S (descending_run k1 t)), true)
          else (S (S (ascending_run k1 t)), false)
      end
  end.

(** The binary search of [binarysort]: with [l < r],
    [p = l + ((r - l) >> 1)]; [r = p] if [pivot < a[p]], else
    [l = p + 1]; until [l = r]. *)
Fixpoint bisect (fuel : nat) (pivot : K) (a : list (K * A)) (l r : nat)
  : nat :=
  match fuel with
  | O => l
  | S fuel' =>
      if (l <? r)%nat then
        let p := (l + (r - l) / 2)%nat in
        match nth_error a p with
        | Some (k, _) =>
            if lt pivot k then bisect fuel' pivot a l p
            else bisect fuel' pivot a (S p) r
        | None => l
        end
      else l
  end.

Definition insert_at (n : nat) (x : K * A) (a : list (K * A))
  : list (K * A) :=
  firstn n a ++ x :: skipn n a.

(** [binarysort]: [done] is the sorted start of the list, [rest] the
    elements still to insert, in order. *)
Fixpoint binarysort (done rest : list (K * A)) : list (K * A) :=
  match rest with
  | [] => done
  | (k, x) :: t =>
      let n := List.length done in
      binarysort (insert_at (bisect n k done 0 n) (k, x) done) t
  end.

Definition list_sort (a : list (K * A)) : list (K * A) :=
  let (n, descending) := count_run a in
  let run := firstn n a in
  binarysort (if descending then rev run else run) (skipn n a).
End ListSort.

(** The keys as integers, when none of them is NaT. *)
Fixpoint instants {A : Type} (l : list (datetime64 * A))
  : option (list (Z * A)) :=
  match l with
  | [] => Some []
  | (NaT, _) :: _ => None
  | (Instant ns, x) :: t =>
      match instants t with
      | Some t' => Some ((ns, x) :: t')
      | None => None
      end
  end.

(** [sorted(result_values, key=lambda x: x[1][0])].  When no key is NaT
    the keys are totally ordered and the stable sort has one possible
    outcome, at every length: [sort_keyed].  With a NaT key the outcome
    is the one of [list_sort] (as long as there are fewer than 64
    results; longer lists also go through merges, which are not
    modelled). *)
Definition sorted64 (result_values : list ExtractionResult64)
  : result (list ExtractionResult64) :=
  keyed <- decorate64 result_values ;;
  match instants keyed with
  | Some keyed' => Ok (map snd (sort_keyed keyed'))
  | None => Ok (map snd (list_sort dt_ltb keyed))
  end.

Definition assemble64 (result_values : list ExtractionResult64)
  : result (list (list Flow) * list (list datetime64)) :=
  result_values' <- sorted64 result_values ;;
  let Streamflow := map fst result_values' in
  let Timestamp := map snd result_values' in
  Ok (Streamflow, Timestamp).

(** The first timestamp of a result as an integer (0 when it is missing
    or NaT), and the test that a result starts at the instant [k]. *)
Definition row_first_ns (row : list datetime64) : Z :=
  match row with
  | Instant ns :: _ => ns
  | _ => 0
  end.

Definition first_ns (x : ExtractionResult64) : Z := row_first_ns (snd x).

Definition starts_at (k : Z) (x : ExtractionResult64) : bool :=
  match snd x with
  | Instant ns :: _ => ns =? k
  | _ => false
  end.

(** The first timestamp exists and is not NaT. *)
Definition starts_with_instant (x : ExtractionResult64) : Prop :=
  exists ns rest, snd x = Instant ns :: rest.

(** A result paired with its key, as a [datetime64] and as an integer. *)
Definition keyed64 (x : ExtractionResult64)
  : datetime64 * ExtractionResult64 :=
  (hd NaT (snd x), x).

Definition keyed_ns (x : ExtractionResult64) : Z * ExtractionResult64 :=
  (first_ns x, x).

(** ** The dispatch cell on views whose time values may be NaT *)

(** The view, with a time coordinate that may hold NaT. *)
Record Dataset64 : Type := mkDataset64 {
  streamflow64 : list (FeatureID * Flow);
  time64 : list datetime64
}.

(** [select_flow] and [select_time] on such a view. *)
Definition select_flow64 (ds : Dataset64) (feature_id : list FeatureID)
  : result (list Flow) :=
  cords <- sel (streamflow64 ds) feature_id ;;
  Ok cords.

Definition select_time64 (ds : Dataset64) : list datetime64 :=
  time64 ds.

Section Pipeline64.
Variable Bytes : Type.
Variable Json : Type.
Variable fsspec_open : string -> result Bytes.
Variable ujson_load : Bytes -> result Json.
Variable xr_open_dataset64 : Json -> result Dataset64.

Definition load_remote_ds64 (json_obj : Json) : result Dataset64 :=
  xr_open_dataset64 json_obj.

Definition process_file64 (file_url : string) (feature_id : list FeatureID)
  : result ExtractionResult64 :=
  json_obj <- load_remote_json fsspec_open ujson_load file_url ;;
  ds <- load_remote_ds64 json_obj ;;
  streamflow_value <- select_flow64 ds feature_id ;;
  let time_value := select_time64 ds in
  Ok (streamflow_value, time_value).

Definition dispatch64 (files : list string) (feature_ids : list FeatureID)
  : result (list ExtractionResult64) :=
  Parallel (map (fun file_url => process_file64 file_url feature_ids) files).

Definition pipeline64 (files : list string) (feature_ids : list FeatureID)
  : result (list (list Flow) * list (list datetime64)) :=
  result_values <- dispatch64 files feature_ids ;;
  assemble64 result_values.
End Pipeline64.

(** ** Worker-count configuration *)

(** What [joblib.parallel_backend(name, n_jobs=...)] records. *)
Record backend_config : Type := mkBackend {
  backend_name : string;
  n_jobs : Z
}.

Definition parallel_backend (name : string) (n : Z) : backend_config :=
  mkBackend name n.

(** The configuration the dispatch cell installs:
    [joblib.parallel_backend("threading", n_jobs=num_cores)], where
    [num_cores = psutil.cpu_count(logical=False)] is the host's number of
    physical cores.  The list [files] is in scope at that point and is not
    consulted. *)
Definition dispatcher_config (num_cores : Z) (files : list string)
  : backend_config :=
  parallel_backend "threading" num_cores.

Definition worker_count (num_cores : Z) (files : list string) : Z :=
  n_jobs (dispatcher_config num_cores files).

(** ** Reading the list of locations *)

Local Open Scope char_scope.
Definition LF : ascii := "010".
Definition CR : ascii := "013".
Local Close Scope char_scope.

(** [open(filename, "r")] reads in universal-newlines mode: ["\r\n"] and a
    lone ["\r"] both arrive as ["\n"]. *)
Fixpoint universal_newlines (s : string) : string :=
  match s with
  | EmptyString => EmptyString
  | String c t =>
      if Ascii.eqb c CR then
        match t with
        | String c' t' =>
            if Ascii.eqb c' LF then String LF (universal_newlines t')
            else String LF (universal_newlines t)
        | EmptyString => String LF EmptyString
        end
      else String c (universal_newlines t)
  end.

(** [for line in file]: the text cut after every ["\n"]; each line keeps
    its terminator, the last line has none if the text does not end with
    one, and an empty text has no line. *)
Fixpoint readlines (s : string) : list string :=
  match s with
  | EmptyString => []
  | String c t =>
      if Ascii.eqb c LF then String c EmptyString :: readlines t
      else match readlines t with
           | [] => [String c EmptyString]
           | l :: ls => String c l :: ls
           end
  end.

(** [str.isspace] on one character of the range U+0000..U+00FF:
    tab, line feed, vertical tab, form feed, carriage return, the four
    separators U+001C..U+001F, space, U+0085 and U+00A0. *)
Definition isspace (c : ascii) : bool :=
  let n := N_of_ascii c in
  ((9 <=? n) && (n <=? 13) || (28 <=? n) && (n <=? 32)
   || (n =? 133) || (n =? 160))%N.

Fixpoint lstrip (s : string) : string :=
  match s with
  | EmptyString => EmptyString
  | String c t => if isspace c then lstrip t else s
  end.

Fixpoint rstrip (s : string) : string :=
  match s with
  | EmptyString => EmptyString
  | String c t =>
      match rstrip t with
      | EmptyString => if isspace c then EmptyString else String c EmptyString
      | t' => String c t'
      end
  end.

(** [line.strip()] *)
Definition strip (line : string) : string := rstrip (lstrip line).

(** The loop of the cell that builds [files]:
    [for line in file: url = line.strip(); files.append(url)],
    started from [files = []]. *)
Definition read_files (text : string) : list string :=
  fold_left (fun files line => let url := strip line in files ++ [url])
            (readlines (universal_newlines text)) [].

(** A line is blank when nothing is left of it after trimming. *)
Definition is_blank (line : string) : bool :=
  match strip line with
  | EmptyString => true
  | String _ _ => false
  end.

(** The reader as the specification words it: one location per line,
    whitespace-trimmed, blank lines ignored. *)
Definition spec_read_locations (text : string) : list string :=
  map strip (filter (fun line => negb (is_blank line))
                    (readlines (universal_newlines text))).

(** Vocabulary for what trimming achieves. *)
Fixpoint all_space (s : string) : bool :=
  match s with
  | EmptyString => true
  | String c t => isspace c && all_space t
  end.

Definition starts_with_space (s : string) : bool :=
  match s with
  | EmptyString => false
  | String c _ => isspace c
  end.

Fixpoint ends_with_space (s : string) : bool :=
  match s with
  | EmptyString => false
  | String c EmptyString => isspace c
  | String _ t => ends_with_space t
  end.

(** [url] is [line] without its leading and trailing whitespace. *)
Definition trimmed_of (line url : string) : Prop :=
  exists pre post,
    line = (pre ++ url ++ post)%string /\
    all_space pre = true /\ all_space post = true /\
    starts_with_space url = false /\ ends_with_space url = false.

(** A line terminator, as a string. *)
Definition nl : string := String LF EmptyString.

(** ** A small world for examples

    Three locations whose headers resolve to views over the features 10
    and 20 with one timestep each, one location that cannot be opened and
    one whose content is not JSON. *)
Definition demo_view (a b : Flow) (t : Timestamp_t) : Dataset :=
  mkDataset [(10, a); (20, b)] [t].

Definition demo_open (file_url : string) : result string :=
  if String.eqb file_url "missing" then Raise OSError else Ok file_url.

Definition demo_load (f : string) : result string :=
  if String.eqb f "garbled" then Raise JSONDecodeError else Ok f.

Definition demo_dataset (json_obj : string) : result Dataset :=
  if String.eqb json_obj "u0" then Ok (demo_view 1.0%float 2.0%float 0)
  else if String.eqb json_obj "u1" then Ok (demo_view 1.1%float 2.1%float 3600)
  else if String.eqb json_obj "u2" then Ok (demo_view 1.2%float 2.2%float 7200)
  else Raise DatasetOpenError.

(** The view behind each location of the example world. *)
Definition demo_view_of (file_url : string) : Dataset :=
  match demo_dataset file_url with
  | Ok ds => ds
  | Raise _ => mkDataset [] []
  end.

(** The example world with its time values as [datetime64]. *)
Definition demo_view64_of (file_url : string) : Dataset64 :=
  mkDataset64 (streamflow (demo_view_of file_url))
              (map Instant (time (demo_view_of file_url))).

Definition demo_dataset64 (json_obj : string) : result Dataset64 :=
  ds <- demo_dataset json_obj ;;
  Ok (mkDataset64 (streamflow ds) (map Instant (time ds))).

(** ** Vocabulary for the further properties *)

(** [c in s] *)
Fixpoint contains (c : ascii) (s : string) : bool :=
  match s with
  | EmptyString => false
  | String c' t => Ascii.eqb c' c || contains c t
  end.

(** The text that holds the given entries one per line, each line ended
    by a line feed. *)
Fixpoint lines_text (urls : list string) : string :=
  match urls with
  | [] => EmptyString
  | u :: us => (u ++ nl ++ lines_text us)%string
  end.

(** An entry that survives a line-oriented reading: no line break inside,
    no whitespace at either end. *)
Definition clean_location (u : string) : bool :=
  negb (contains LF u) && negb (contains CR u)
  && negb (starts_with_space u) && negb (ends_with_space u).

(** * Properties *)

(** ** Sanity checks on concrete inputs *)

Example sel_in_requested_order :
  sel [(10, 1.5%float); (20, 2.5%float)] [20; 10]
  = Ok [2.5%float; 1.5%float].
Proof. reflexivity. Qed.

Example sel_missing_label :
  sel [(10, 1.5%float); (20, 2.5%float)] [10; 999] = Raise KeyError.
Proof. reflexivity. Qed.

Example sel_repeated_label_in_index :
  sel [(10, 1.5%float); (10, 2.5%float)] [10] = Raise InvalidIndexError.
Proof. reflexivity. Qed.

Example universal_newlines_crlf :
  universal_newlines ("a" ++ String CR nl ++ "b" ++ String CR "c")
  = ("a" ++ nl ++ "b" ++ nl ++ "c")%string.
Proof. reflexivity. Qed.

Example readlines_last_line_unterminated :
  readlines ("a" ++ nl ++ "b") = [("a" ++ nl)%string; "b"%string].
Proof. reflexivity. Qed.

Example strip_both_ends :
  strip ("  http://a/b.json " ++ nl) = "http://a/b.json"%string.
Proof. reflexivity. Qed.

Example read_files_three_lines :
  read_files (" u0 " ++ nl ++ "u1" ++ nl ++ "u2")
  = ["u0"; "u1"; "u2"]%string.
Proof. reflexivity. Qed.

Example assemble_orders_by_first_timestamp :
  assemble [([3%float], [30; 5]); ([1%float], [10]); ([2%float], [20])]
  = Ok ([[1%float]; [2%float]; [3%float]], [[10]; [20]; [30; 5]]).
Proof. reflexivity. Qed.

Example assemble_keeps_order_of_ties :
  assemble [([3%float], [7]); ([1%float], [7]); ([2%float], [4])]
  = Ok ([[2%float]; [3%float]; [1%float]], [[4]; [7]; [7]]).
Proof. reflexivity. Qed.

Example pipeline_on_example_world :
  pipeline demo_open demo_load demo_dataset ["u1"; "u2"; "u0"]%string [20]
  = Ok ([[2.0]; [2.1]; [2.2]]%float, [[0]; [3600]; [7200]]).
Proof. reflexivity. Qed.

Example pipeline_missing_feature :
  pipeline demo_open demo_load demo_dataset ["u0"; "u1"]%string [10; 999]
  = Raise KeyError.
Proof. reflexivity. Qed.

Example assemble64_NaT_left_in_place :
  assemble64 [([20%float], [Instant 20]); ([0%float], [NaT]);
              ([10%float], [Instant 10])]
  = Ok ([[20%float]; [0%float]; [10%float]],
        [[Instant 20]; [NaT]; [Instant 10]]).
Proof. reflexivity. Qed.

Example list_sort_NaT_in_the_middle :
  map snd (list_sort dt_ltb
             [(Instant 6, 0%nat); (Instant 7, 1%nat); (Instant 8, 2%nat);
              (NaT, 3%nat); (Instant 5, 4%nat); (Instant 1, 5%nat);
              (Instant 5, 6%nat)])
  = [5; 6; 0; 1; 2; 3; 4]%nat.
Proof. reflexivity. Qed.

Example list_sort_descending_run :
  map snd (list_sort dt_ltb
             [(Instant 7, 0%nat); (Instant 5, 1%nat); (NaT, 2%nat)])
  = [1; 0; 2]%nat.
Proof. reflexivity. Qed.

Example list_sort_agrees_on_instants :
  list_sort Z.ltb [(3, 0%nat); (1, 1%nat); (3, 2%nat); (2, 3%nat); (1, 4%nat)]
  = sort_keyed [(3, 0%nat); (1, 1%nat); (3, 2%nat); (2, 3%nat); (1, 4%nat)].
Proof. reflexivity. Qed.

(** ** The error monad *)

Lemma sequence_map_Ok {A B : Type} (f : A -> result B) (g : A -> B)
  (l : list A) :
  (forall x, In x l -> f x = Ok (g x)) ->
  sequence (map f l) = Ok (map g l).
Proof.
  induction l as [|x l IH]; intros H; simpl.
  - reflexivity.
  - rewrite (H x (or_introl eq_refl)). simpl.
    rewrite IH by (intros y Hy; apply H; right; exact Hy).
    reflexivity.
Qed.

Lemma sequence_length {A : Type} (ms : list (result A)) (l : list A) :
  sequence ms = Ok l -> List.length l = List.length ms.
Proof.
  revert l. induction ms as [|m ms IH]; simpl; intros l H.
  - injection H as <-. reflexivity.
  - destruct m as [a|e]; simpl in H; [|discriminate].
    destruct (sequence ms) as [l'|e]; simpl in H; [|discriminate].
    injection H as <-. simpl. f_equal. apply IH. reflexivity.
Qed.

(** The first exception met is the one raised. *)
Lemma sequence_first_Raise {A : Type} (pre : list (result A)) (e : exn)
  (post : list (result A)) :
  Forall (fun m => exists a, m = Ok a) pre ->
  sequence (pre ++ Raise e :: post) = Raise e.
Proof.
  induction 1 as [|m pre [a ->] _ IH]; simpl.
  - reflexivity.
  - rewrite IH. reflexivity.
Qed.

(** A permutation of tasks that all succeed gathers a permutation of the
    results. *)
Lemma sequence_Permutation {A : Type} (ms ms' : list (result A)) :
  Permutation ms ms' ->
  forall l', sequence ms' = Ok l' ->
  exists l, sequence ms = Ok l /\ Permutation l l'.
Proof.
  induction 1 as [|m ms ms' _ IH|m1 m2 ms|ms1 ms2 ms3 _ IH1 _ IH2];
    intros l' H.
  - exists l'. split; [exact H | apply Permutation_refl].
  - simpl in H. destruct m as [a|e]; simpl in H; [|discriminate].
    destruct (sequence ms') as [r|e] eqn:E; simpl in H; [|discriminate].
    injection H as <-. destruct (IH r eq_refl) as (l & Hl & Hp).
    exists (a :: l). simpl. rewrite Hl. simpl. split; [reflexivity|].
    apply perm_skip, Hp.
  - simpl in H. destruct m1 as [a1|e]; simpl in H; [|discriminate].
    destruct m2 as [a2|e]; simpl in H; [|discriminate].
    destruct (sequence ms) as [r|e] eqn:E; simpl in H; [|discriminate].
    injection H as <-. exists (a2 :: a1 :: r). simpl. rewrite E. simpl.
    split; [reflexivity | apply perm_swap].
  - destruct (IH2 l' H) as (l2 & H2 & P2).
    destruct (IH1 l2 H2) as (l1 & H1 & P1).
    exists l1. split; [exact H1 | eapply Permutation_trans; eassumption].
Qed.

(** ** The stable sort *)

Section StableSortFacts.
Variable A : Type.
Implicit Types (l : list (Z * A)) (k : Z) (x : A).

Lemma insert_keyed_Permutation k x l :
  Permutation (insert_keyed k x l) ((k, x) :: l).
Proof.
  induction l as [|[k' y] t IH]; simpl.
  - apply Permutation_refl.
  - destruct (k <=? k').
    + apply Permutation_refl.
    + eapply Permutation_trans; [apply perm_skip, IH | apply perm_swap].
Qed.

Lemma sort_keyed_Permutation l : Permutation (sort_keyed l) l.
Proof.
  induction l as [|[k x] t IH]; simpl.
  - apply Permutation_refl.
  - eapply Permutation_trans; [apply insert_keyed_Permutation|].
    apply perm_skip, IH.
Qed.

Lemma insert_keyed_sorted k x l :
  keys_sorted l -> keys_sorted (insert_keyed k x l).
Proof.
  unfold keys_sorted.
  induction l as [|[k' y] t IH]; simpl; intros H.
  - constructor; constructor.
  - destruct (Z.leb_spec k k') as [Hle|Hgt]; simpl.
    + constructor; [exact H|].
      constructor; [exact Hle|].
      apply StronglySorted_inv in H. destruct H as [_ H].
      eapply Forall_impl; [|exact H]. simpl. intros; lia.
    + apply StronglySorted_inv in H. destruct H as [Ht Hall].
      constructor; [apply IH, Ht|].
      assert (P : Permutation (map fst (insert_keyed k x t))
                              (k :: map fst t)).
      { apply (Permutation_map fst (insert_keyed_Permutation k x t)). }
      eapply Permutation_Forall; [apply Permutation_sym, P|].
      constructor; [lia | exact Hall].
Qed.

Lemma sort_keyed_sorted l : keys_sorted (sort_keyed l).
Proof.
  induction l as [|[k x] t IH]; simpl.
  - constructor.
  - apply insert_keyed_sorted, IH.
Qed.

Lemma insert_keyed_with_key k x l k0 :
  keys_sorted l ->
  with_key k0 (insert_keyed k x l) = with_key k0 ((k, x) :: l).
Proof.
  unfold keys_sorted, with_key.
  induction l as [|[k' y] t IH]; simpl; intros H.
  - reflexivity.
  - apply StronglySorted_inv in H. destruct H as [Ht Hall].
    destruct (Z.leb_spec k k') as [Hle|Hgt]; simpl.
    + reflexivity.
    + rewrite (IH Ht). simpl.
      destruct (Z.eqb_spec k' k0) as [->|N1];
        destruct (Z.eqb_spec k k0) as [->|N2]; try reflexivity.
      (* both keys equal k0: then k = k', against k' < k *)
      lia.
Qed.

(** Stability: the sort keeps the order of the elements of each key. *)
Lemma sort_keyed_stable l k0 :
  with_key k0 (sort_keyed l) = with_key k0 l.
Proof.
  induction l as [|[k x] t IH]; simpl.
  - reflexivity.
  - rewrite insert_keyed_with_key by apply sort_keyed_sorted.
    unfold with_key in *. simpl. rewrite IH. reflexivity.
Qed.

Lemma with_key_In l k0 p : In p (with_key k0 l) -> In p l /\ fst p = k0.
Proof.
  unfold with_key. rewrite filter_In. intros [H1 H2].
  split; [exact H1 | apply Z.eqb_eq, H2].
Qed.

(** Two key-sorted lists with the same elements of each key, in the same
    order, are the same list: a stable sort has one outcome. *)
Lemma stable_sort_unique l1 :
  forall l2,
    keys_sorted l1 -> keys_sorted l2 ->
    (forall k0, with_key k0 l1 = with_key k0 l2) ->
    l1 = l2.
Proof.
  induction l1 as [|[k1 x1] t1 IH]; intros l2 S1 S2 Hk.
  - destruct l2 as [|p t2]; [reflexivity|].
    specialize (Hk (fst p)). unfold with_key in Hk. simpl in Hk.
    rewrite Z.eqb_refl in Hk. discriminate.
  - destruct l2 as [|[k2 x2] t2].
    + specialize (Hk k1). unfold with_key in Hk. simpl in Hk.
      rewrite Z.eqb_refl in Hk. discriminate.
    + assert (E : k1 = k2).
      { unfold keys_sorted in S1, S2. simpl in S1, S2.
        apply StronglySorted_inv in S1. destruct S1 as [_ A1].
        apply StronglySorted_inv in S2. destruct S2 as [_ A2].
        rewrite Forall_forall in A1, A2.
        destruct (Z.eq_dec k1 k2) as [E|N]; [exact E|].
        assert (H12 : k1 <= k2).
        { assert (I : In (k2, x2) (with_key k2 ((k1, x1) :: t1))).
          { rewrite Hk. unfold with_key. simpl. rewrite Z.eqb_refl.
            left; reflexivity. }
          apply with_key_In in I. destruct I as [[I|I] _].
          - congruence.
          - apply A1. change k2 with (fst (k2, x2)). apply in_map, I. }
        assert (H21 : k2 <= k1).
        { assert (I : In (k1, x1) (with_key k1 ((k2, x2) :: t2))).
          { rewrite <- Hk. unfold with_key. simpl. rewrite Z.eqb_refl.
            left; reflexivity. }
          apply with_key_In in I. destruct I as [[I|I] _].
          - congruence.
          - apply A2. change k1 with (fst (k1, x1)). apply in_map, I. }
        lia. }
      subst k2.
      assert (Hh := Hk k1). unfold with_key in Hh. simpl in Hh.
      rewrite Z.eqb_refl in Hh. injection Hh as Hx Ht.
      subst x2. f_equal.
      apply IH.
      * unfold keys_sorted in *. simpl in S1.
        apply StronglySorted_inv in S1. apply S1.
      * unfold keys_sorted in *. simpl in S2.
        apply StronglySorted_inv in S2. apply S2.
      * intros k0. specialize (Hk k0). unfold with_key in *. simpl in Hk.
        destruct (k1 =? k0); [injection Hk as Hk; exact Hk | exact Hk].
Qed.

(** With pairwise distinct keys the elements of a key do not depend on
    the order of the list. *)
Lemma with_key_Permutation l l' k0 :
  Permutation l l' -> NoDup (map fst l) ->
  with_key k0 l = with_key k0 l'.
Proof.
  unfold with_key.
  induction 1 as [|p l l' HP IH|p q l|l1 l2 l3 P1 IH1 P2 IH2]; intros ND.
  - reflexivity.
  - simpl. simpl in ND. apply NoDup_cons_iff in ND.
    rewrite (IH (proj2 ND)). reflexivity.
  - simpl. simpl in ND.
    destruct (Z.eqb_spec (fst p) k0) as [E1|N1];
      destruct (Z.eqb_spec (fst q) k0) as [E2|N2]; try reflexivity.
    exfalso. apply NoDup_cons_iff in ND. destruct ND as [ND _].
    apply ND. left. congruence.
  - rewrite (IH1 ND). apply IH2.
    eapply Permutation_NoDup; [apply Permutation_map, P1 | exact ND].
Qed.

(** Hence the sorted list does not depend on the order of the input. *)
Lemma sort_keyed_Permutation_invariant l l' :
  Permutation l l' -> NoDup (map fst l) ->
  sort_keyed l = sort_keyed l'.
Proof.
  intros P ND. apply stable_sort_unique.
  - apply sort_keyed_sorted.
  - apply sort_keyed_sorted.
  - intros k0. rewrite !sort_keyed_stable.
    apply with_key_Permutation; assumption.
Qed.

(** A list whose keys already increase is left as it is. *)
Lemma sort_keyed_sorted_id l : keys_sorted l -> sort_keyed l = l.
Proof.
  intros S. apply stable_sort_unique.
  - apply sort_keyed_sorted.
  - exact S.
  - intros k0. apply sort_keyed_stable.
Qed.
End StableSortFacts.

(** ** [sorted] and [assemble] *)

Lemma decorate_Ok (l : list ExtractionResult) :
  Forall (fun x => snd x <> []) l -> decorate l = Ok (map keyed l).
Proof.
  intros H. unfold decorate. apply sequence_map_Ok.
  intros [v ts] Hin. rewrite Forall_forall in H. specialize (H _ Hin).
  unfold sort_key, keyed, first_time. simpl in *.
  destruct ts as [|t ts]; [congruence | reflexivity].
Qed.

Lemma decorate_Raise (l : list ExtractionResult) :
  Exists (fun x => snd x = []) l -> decorate l = Raise IndexError.
Proof.
  unfold decorate.
  induction l as [|[v ts] l IH]; intros H.
  - inversion H.
  - simpl. unfold sort_key at 1. simpl.
    destruct ts as [|t ts]; simpl.
    + reflexivity.
    + apply Exists_cons in H. destruct H as [H|H]; [discriminate|].
      rewrite (IH H). reflexivity.
Qed.

Lemma map_snd_keyed (l : list ExtractionResult) : map snd (map keyed l) = l.
Proof.
  rewrite map_map. simpl. apply map_id.
Qed.

Lemma map_fst_keyed (l : list ExtractionResult) :
  map fst (map keyed l) = map first_time l.
Proof.
  rewrite map_map. reflexivity.
Qed.

Lemma sorted_Ok (l : list ExtractionResult) :
  Forall (fun x => snd x <> []) l ->
  sorted l = Ok (map snd (sort_keyed (map keyed l))).
Proof.
  intros H. unfold sorted. rewrite (decorate_Ok H). reflexivity.
Qed.

Lemma sorted_Permutation (l : list ExtractionResult) :
  Permutation l (map snd (sort_keyed (map keyed l))).
Proof.
  rewrite <- (map_snd_keyed l) at 1.
  apply Permutation_map, Permutation_sym, sort_keyed_Permutation.
Qed.

(** The keys carried through the sort are the first timestamps of the
    results they accompany. *)
Lemma sort_keyed_keys (l : list ExtractionResult) :
  map first_time (map snd (sort_keyed (map keyed l)))
  = map fst (sort_keyed (map keyed l)).
Proof.
  assert (H : Forall (fun p => first_time (snd p) = fst p)
                     (sort_keyed (map keyed l))).
  { eapply Permutation_Forall.
    - apply Permutation_sym, sort_keyed_Permutation.
    - apply Forall_forall. intros p Hp. apply in_map_iff in Hp.
      destruct Hp as (x & <- & _). reflexivity. }
  revert H. generalize (sort_keyed (map keyed l)). intros kl H.
  induction H as [|p t Hp _ IH]; cbn [map].
  - reflexivity.
  - f_equal; assumption.
Qed.

Lemma sorted_first_times (l : list ExtractionResult) :
  StronglySorted Z.le
    (map first_time (map snd (sort_keyed (map keyed l)))).
Proof.
  rewrite sort_keyed_keys. apply sort_keyed_sorted.
Qed.

Lemma StronglySorted_nth_error (l : list Z) :
  StronglySorted Z.le l ->
  forall i j a b, (i < j)%nat ->
    nth_error l i = Some a -> nth_error l j = Some b -> a <= b.
Proof.
  induction 1 as [|x l _ IH Hall]; intros i j a b Hij Ha Hb.
  - destruct i; discriminate.
  - destruct j as [|j]; [lia|]. simpl in Hb.
    destruct i as [|i]; simpl in Ha.
    + injection Ha as <-. rewrite Forall_forall in Hall.
      apply Hall. eapply nth_error_In, Hb.
    + apply (IH i j); [lia | assumption | assumption].
Qed.

Lemma StronglySorted_lt_NoDup (l : list Z) :
  StronglySorted Z.lt l -> NoDup l.
Proof.
  induction 1 as [|x l _ IH Hall]; constructor.
  - intros Hin. rewrite Forall_forall in Hall.
    specialize (Hall _ Hin). lia.
  - exact IH.
Qed.

Lemma StronglySorted_lt_le (l : list Z) :
  StronglySorted Z.lt l -> StronglySorted Z.le l.
Proof.
  induction 1 as [|x l _ IH Hall]; constructor.
  - exact IH.
  - eapply Forall_impl; [|exact Hall]. simpl. intros; lia.
Qed.

(** On results with pairwise distinct first timestamps the assembly does
    not depend on the order in which they were gathered. *)
Lemma assemble_Permutation_invariant (l l' : list ExtractionResult) :
  Permutation l l' ->
  Forall (fun x => snd x <> []) l ->
  NoDup (map first_time l) ->
  assemble l' = assemble l.
Proof.
  intros P NE ND. unfold assemble.
  assert (NE' : Forall (fun x => snd x <> []) l').
  { eapply Permutation_Forall; eassumption. }
  rewrite (sorted_Ok NE), (sorted_Ok NE'). simpl.
  rewrite (@sort_keyed_Permutation_invariant _ (map keyed l) (map keyed l')).
  - reflexivity.
  - apply Permutation_map, P.
  - rewrite map_fst_keyed. exact ND.
Qed.

(** A list whose first timestamps already increase is assembled as it
    stands. *)
Lemma assemble_of_sorted (l : list ExtractionResult) :
  Forall (fun x => snd x <> []) l ->
  StronglySorted Z.le (map first_time l) ->
  sorted l = Ok l /\ assemble l = Ok (map fst l, map snd l).
Proof.
  intros NE SS.
  assert (E : sorted l = Ok l).
  { rewrite (sorted_Ok NE). rewrite sort_keyed_sorted_id.
    - rewrite map_snd_keyed. reflexivity.
    - unfold keys_sorted. rewrite map_fst_keyed. exact SS. }
  split; [exact E|]. unfold assemble. rewrite E. reflexivity.
Qed.

Lemma timestamps_present_or_missing (l : list ExtractionResult) :
  Forall (fun x => snd x <> []) l \/ Exists (fun x => snd x = []) l.
Proof.
  induction l as [|[v ts] l [IH|IH]].
  - left. constructor.
  - destruct ts as [|t ts].
    + right. apply Exists_cons_hd. reflexivity.
    + left. constructor; [discriminate | exact IH].
  - right. apply Exists_cons_tl, IH.
Qed.

(** What the assembly returns when every result carries a timestamp. *)
Lemma assemble_Ok (l : list ExtractionResult) :
  Forall (fun x => snd x <> []) l ->
  assemble l
  = Ok (map fst (map snd (sort_keyed (map keyed l))),
        map snd (map snd (sort_keyed (map keyed l)))).
Proof.
  intros NE. unfold assemble. rewrite (sorted_Ok NE). reflexivity.
Qed.

Lemma assemble_Raise (l : list ExtractionResult) :
  Exists (fun x => snd x = []) l -> assemble l = Raise IndexError.
Proof.
  intros H. unfold assemble, sorted. rewrite (decorate_Raise H). reflexivity.
Qed.

(** ** The assembly step *)

(** C10.  If some gathered result carries an empty timestamp sequence, the
    assembly raises [IndexError] (the sort key reads element 0 of an empty
    array); no [Streamflow] or [Timestamp] list is produced. *)
Theorem assemble_empty_timestamps_fails :
  forall result_values : list ExtractionResult,
    Exists (fun x => snd x = []) result_values ->
    assemble result_values = Raise IndexError.
Proof.
  intros l H. apply assemble_Raise, H.
Qed.

Lemma assemble_empty_timestamps_fails_witness :
  let result_values : list ExtractionResult :=
    [([1%float], [10]); ([2%float], []); ([3%float], [5])] in
  Exists (fun x => snd x = []) result_values /\
  assemble result_values = Raise IndexError.
Proof.
  intros result_values.
  assert (H : Exists (fun x : ExtractionResult => snd x = []) result_values).
  { apply Exists_cons_tl, Exists_cons_hd. reflexivity. }
  split; [exact H|].
  exact (assemble_empty_timestamps_fails H).
Defined.

(** C3 as stated fails when two different results share their first
    timestamp: the list below is sorted by timestamp, and assembling it
    in reverse order gives the two rows in the other order. *)
Lemma resort_reverse_tie_counterexample :
  let l : list ExtractionResult := [([1%float], [5]); ([2%float], [5])] in
  keys_sorted (map keyed l) /\
  Forall (fun x => snd x <> []) l /\
  assemble (rev l) <> assemble l.
Proof.
  intros l. subst l. split; [|split].
  - unfold keys_sorted. cbv [map keyed first_time fst snd hd].
    repeat constructor; lia.
  - repeat constructor; discriminate.
  - intros H.
    apply (f_equal (fun r => match r with
                             | Ok ((f :: _) :: _, _) => PrimFloat.eqb f 1%float
                             | _ => false
                             end)) in H.
    vm_compute in H. discriminate.
Qed.

(** C3, amended.  For every list of results sorted by first timestamp with
    pairwise distinct first timestamps (strictly increasing), assembling
    the list in reverse order yields the same output as assembling the
    list itself, namely its own rows in their order. *)
Theorem assemble_reverse_of_sorted :
  forall l : list ExtractionResult,
    Forall (fun x => snd x <> []) l ->
    StronglySorted Z.lt (map first_time l) ->
    assemble (rev l) = assemble l /\
    sorted (rev l) = Ok l /\
    assemble l = Ok (map fst l, map snd l).
Proof.
  intros l NE SS.
  destruct (assemble_of_sorted NE (StronglySorted_lt_le SS)) as [_ E].
  assert (ND : NoDup (map first_time l)).
  { apply StronglySorted_lt_NoDup, SS. }
  assert (R : assemble (rev l) = assemble l).
  { apply assemble_Permutation_invariant;
      [apply Permutation_rev | exact NE | exact ND]. }
  split; [exact R|]. split; [|exact E].
  assert (NE' : Forall (fun x => snd x <> []) (rev l)).
  { eapply Permutation_Forall; [apply Permutation_rev | exact NE]. }
  rewrite (sorted_Ok NE').
  rewrite <- (@sort_keyed_Permutation_invariant _ (map keyed l)).
  - rewrite sort_keyed_sorted_id.
    + rewrite map_snd_keyed. reflexivity.
    + unfold keys_sorted. rewrite map_fst_keyed.
      apply StronglySorted_lt_le, SS.
  - apply Permutation_map, Permutation_rev.
  - rewrite map_fst_keyed. exact ND.
Qed.

Lemma assemble_reverse_of_sorted_witness :
  let l : list ExtractionResult :=
    [([1%float], [10]); ([2%float], [20]); ([3%float], [30])] in
  Forall (fun x => snd x <> []) l /\
  StronglySorted Z.lt (map first_time l) /\
  assemble (rev l) = assemble l /\
  sorted (rev l) = Ok l /\
  assemble l = Ok (map fst l, map snd l).
Proof.
  intros l.
  assert (NE : Forall (fun x : ExtractionResult => snd x <> []) l).
  { repeat constructor; discriminate. }
  assert (SS : StronglySorted Z.lt (map first_time l)).
  { subst l. cbv [map first_time snd hd]. repeat constructor. }
  split; [exact NE|]. split; [exact SS|].
  exact (assemble_reverse_of_sorted NE SS).
Defined.

(** ** Label selection *)

Lemma existsb_eqb_In (x : Z) (l : list Z) :
  existsb (Z.eqb x) l = true <-> In x l.
Proof.
  rewrite existsb_exists. split.
  - intros (y & Hy & E). apply Z.eqb_eq in E. subst y. exact Hy.
  - intros H. exists x. split; [exact H | apply Z.eqb_refl].
Qed.

Lemma is_unique_NoDup (index : list FeatureID) :
  is_unique index = true <-> NoDup index.
Proof.
  induction index as [|x t IH]; simpl.
  - split; [constructor | reflexivity].
  - rewrite andb_true_iff, negb_true_iff, IH, NoDup_cons_iff.
    rewrite <- existsb_eqb_In.
    destruct (existsb (Z.eqb x) t); intuition congruence.
Qed.

Lemma lookup_label_None (da : list (FeatureID * Flow)) (label : FeatureID) :
  lookup_label da label = None <-> ~ In label (map fst da).
Proof.
  induction da as [|[l v] t IH]; simpl.
  - tauto.
  - destruct (Z.eqb_spec l label) as [E|N].
    + split; [discriminate | intros H; exfalso; apply H; left; exact E].
    + rewrite IH. tauto.
Qed.

Lemma lookup_label_Some (da : list (FeatureID * Flow)) (label : FeatureID)
  (v : Flow) :
  lookup_label da label = Some v -> In (label, v) da.
Proof.
  induction da as [|[l w] t IH]; simpl.
  - discriminate.
  - destruct (Z.eqb_spec l label) as [E|N].
    + intros H. injection H as <-. left. subst l. reflexivity.
    + intros H. right. apply IH, H.
Qed.

Lemma lookup_labels_missing (da : list (FeatureID * Flow))
  (labels : list FeatureID) (id : FeatureID) :
  In id labels -> ~ In id (map fst da) -> lookup_labels da labels = None.
Proof.
  intros Hin Hno. induction labels as [|l ls IH]; simpl.
  - contradiction.
  - destruct Hin as [->|Hin].
    + apply lookup_label_None in Hno. rewrite Hno. reflexivity.
    + rewrite (IH Hin). destruct (lookup_label da l); reflexivity.
Qed.

Lemma lookup_labels_present (da : list (FeatureID * Flow))
  (labels : list FeatureID) :
  incl labels (map fst da) ->
  exists vs,
    lookup_labels da labels = Some vs /\
    Forall2 (fun id v => In (id, v) da) labels vs.
Proof.
  induction labels as [|l ls IH]; intros H; simpl.
  - exists []. split; [reflexivity | constructor].
  - destruct IH as (vs & E & F).
    { intros x Hx. apply H. right. exact Hx. }
    destruct (lookup_label da l) as [v|] eqn:L.
    + rewrite E. exists (v :: vs). split; [reflexivity|].
      constructor; [apply lookup_label_Some, L | exact F].
    + apply lookup_label_None in L. exfalso. apply L, H. left. reflexivity.
Qed.

(** C4 as stated fails on a view with a repeated label: the request
    below asks for an identifier the view does not have, and the
    exception is pandas' [InvalidIndexError], not [KeyError] (the
    specification's FeatureNotFoundError). *)
Lemma select_flow_repeated_label_counterexample :
  let ds := mkDataset [(10, 1.0%float); (10, 2.0%float)] [0] in
  In 999 [10; 999] /\
  ~ In 999 (feature_id_coord ds) /\
  select_flow ds [10; 999] = Raise InvalidIndexError /\
  select_flow ds [10; 999] <> Raise KeyError.
Proof.
  intros ds. split; [right; left; reflexivity|]. split.
  - simpl. intros [H|[H|H]]; [discriminate | discriminate | exact H].
  - split; [reflexivity | discriminate].
Qed.

(** C4, amended.  When a requested identifier is absent from the view's
    [feature_id] coordinate, [select_flow] never returns a value, neither
    a default nor a null for the missing identifier: it raises.  The
    exception is xarray's [KeyError] (the specification's
    FeatureNotFoundError; the notebook has no exception classes of its
    own) when the coordinate labels are distinct, and pandas'
    [InvalidIndexError] when a label is repeated. *)
Theorem select_flow_missing_id_raises :
  forall (ds : Dataset) (feature_id : list FeatureID) (id : FeatureID),
    In id feature_id ->
    ~ In id (feature_id_coord ds) ->
    (forall values, select_flow ds feature_id <> Ok values) /\
    select_flow ds feature_id
    = Raise (if is_unique (feature_id_coord ds)
             then KeyError else InvalidIndexError).
Proof.
  intros ds ids id Hin Hno.
  assert (E : select_flow ds ids
              = Raise (if is_unique (feature_id_coord ds)
                       then KeyError else InvalidIndexError)).
  { unfold select_flow, sel, feature_id_coord in *.
    destruct (is_unique (map fst (streamflow ds))).
    - rewrite (@lookup_labels_missing _ _ _ Hin Hno). reflexivity.
    - reflexivity. }
  split; [|exact E].
  intros values H. rewrite E in H. discriminate.
Qed.

Lemma select_flow_missing_id_raises_witness :
  let ds := mkDataset [(10, 1%float); (20, 2%float)] [0] in
  In 999 [10; 999] /\
  ~ In 999 (feature_id_coord ds) /\
  (forall values, select_flow ds [10; 999] <> Ok values) /\
  select_flow ds [10; 999] = Raise KeyError.
Proof.
  intros ds.
  assert (Hin : In 999 [10; 999]) by (right; left; reflexivity).
  assert (Hno : ~ In 999 (feature_id_coord ds)).
  { simpl. intros [H|[H|H]]; [discriminate | discriminate | exact H]. }
  split; [exact Hin|]. split; [exact Hno|].
  exact (@select_flow_missing_id_raises ds [10; 999] 999 Hin Hno).
Defined.

(** ** Worker-count configuration *)

(** C7 as stated fails: with 8 physical cores and 3 locations the
    configured worker count is 8, above the number of locations. *)
Lemma worker_count_exceeds_locations_counterexample :
  let files := ["u0"; "u1"; "u2"]%string in
  worker_count 8 files = 8 /\
  ~ (1 <= worker_count 8 files <= Z.of_nat (List.length files)).
Proof.
  intros files. split; [reflexivity|].
  unfold worker_count. simpl. lia.
Qed.

(** C7, amended.  The worker count configured for the dispatcher is the
    host's physical core count itself, whatever the list of locations;
    it is at least 1 when that count is. *)
Theorem worker_count_is_core_count :
  forall (num_cores : Z) (files : list string),
    1 <= num_cores ->
    worker_count num_cores files = num_cores /\
    backend_name (dispatcher_config num_cores files) = "threading"%string /\
    1 <= worker_count num_cores files.
Proof.
  intros num_cores files H. unfold worker_count, dispatcher_config.
  simpl. repeat split. exact H.
Qed.

Lemma worker_count_is_core_count_witness :
  1 <= 4 /\
  worker_count 4 ["u0"]%string = 4 /\
  backend_name (dispatcher_config 4 ["u0"]%string) = "threading"%string /\
  1 <= worker_count 4 ["u0"]%string.
Proof.
  assert (H : 1 <= 4) by lia.
  split; [exact H|].
  exact (@worker_count_is_core_count 4 ["u0"]%string H).
Defined.

(** ** Reading the list of locations *)

Lemma fold_left_append_map {A B : Type} (f : A -> B) (l : list A)
  (acc : list B) :
  fold_left (fun files line => files ++ [f line]) l acc = acc ++ map f l.
Proof.
  revert acc. induction l as [|x l IH]; intros acc; simpl.
  - symmetry. apply app_nil_r.
  - rewrite IH, <- app_assoc. reflexivity.
Qed.

Lemma read_files_map (text : string) :
  read_files text = map strip (readlines (universal_newlines text)).
Proof.
  unfold read_files. apply (fold_left_append_map strip).
Qed.

Lemma lstrip_spec (s : string) :
  exists pre,
    s = (pre ++ lstrip s)%string /\ all_space pre = true /\
    starts_with_space (lstrip s) = false.
Proof.
  induction s as [|c t (pre & E & Hp & Hs)]; simpl.
  - exists EmptyString. repeat split.
  - destruct (isspace c) eqn:C.
    + exists (String c pre). simpl. rewrite C, Hp, <- E. repeat split.
      exact Hs.
    + exists EmptyString. simpl. repeat split. exact C.
Qed.

Lemma rstrip_spec (s : string) :
  exists post,
    s = (rstrip s ++ post)%string /\ all_space post = true /\
    ends_with_space (rstrip s) = false.
Proof.
  induction s as [|c t (post & E & Hp & Hs)]; simpl.
  - exists EmptyString. repeat split.
  - destruct (rstrip t) as [|c' r] eqn:R.
    + simpl in E. subst post. destruct (isspace c) eqn:C.
      * exists (String c t). simpl. rewrite C, Hp. repeat split.
      * exists t. simpl. repeat split; assumption.
    + exists post. simpl. rewrite E at 1. simpl. repeat split.
      * exact Hp.
      * exact Hs.
Qed.

Lemma rstrip_keeps_head (s : string) :
  starts_with_space s = false -> starts_with_space (rstrip s) = false.
Proof.
  destruct s as [|c t]; simpl; intros H.
  - reflexivity.
  - destruct (rstrip t); simpl; [rewrite H|]; simpl; assumption.
Qed.

Lemma append_assoc (a b c : string) :
  ((a ++ b) ++ c = a ++ (b ++ c))%string.
Proof.
  induction a as [|x a IH]; simpl; [reflexivity | rewrite IH; reflexivity].
Qed.

Lemma strip_trimmed (line : string) : trimmed_of line (strip line).
Proof.
  unfold trimmed_of, strip.
  destruct (lstrip_spec line) as (pre & E1 & P1 & S1).
  destruct (rstrip_spec (lstrip line)) as (post & E2 & P2 & S2).
  exists pre, post. repeat split; try assumption.
  - rewrite <- E2. exact E1.
  - apply rstrip_keeps_head, S1.
Qed.

(** C8 as stated fails: of the three lines below the second is blank, and
    it is kept, as an empty location, where the specification's reader
    drops it. *)
Lemma read_files_keeps_blank_line_counterexample :
  let text := ("a" ++ nl ++ nl ++ "b" ++ nl)%string in
  readlines (universal_newlines text)
  = [("a" ++ nl)%string; nl; ("b" ++ nl)%string] /\
  is_blank nl = true /\
  read_files text = ["a"; ""; "b"]%string /\
  spec_read_locations text = ["a"; "b"]%string /\
  read_files text <> spec_read_locations text.
Proof.
  intros text. repeat split. discriminate.
Qed.

(** C8, amended.  The reader produces exactly one entry per input line,
    in order: the line with its leading and trailing whitespace removed.
    A blank line is not ignored; it yields the empty string as an
    entry. *)
Theorem read_files_one_entry_per_line :
  forall text : string,
    read_files text = map strip (readlines (universal_newlines text)) /\
    List.length (read_files text)
    = List.length (readlines (universal_newlines text)) /\
    Forall2 trimmed_of (readlines (universal_newlines text))
            (read_files text) /\
    (forall line, In line (readlines (universal_newlines text)) ->
                  is_blank line = true ->
                  In EmptyString (read_files text)).
Proof.
  intros text. rewrite read_files_map.
  generalize (readlines (universal_newlines text)). intros lines.
  split; [reflexivity|]. split; [apply length_map|]. split.
  - induction lines as [|l ls IH]; simpl; constructor.
    + apply strip_trimmed.
    + exact IH.
  - intros line Hin Hb. apply in_map_iff. exists line. split; [|exact Hin].
    unfold is_blank in Hb. destruct (strip line); [reflexivity|discriminate].
Qed.

(** ** The per-location chain and the dispatch *)

Section PipelineFacts.
Variables Bytes Json : Type.
Variable fsspec_open : string -> result Bytes.
Variable ujson_load : Bytes -> result Json.
Variable xr_open_dataset : Json -> result Dataset.

Local Abbreviation load_json := (load_remote_json fsspec_open ujson_load).
Local Abbreviation load_ds := (load_remote_ds xr_open_dataset).
Local Abbreviation process :=
  (process_file fsspec_open ujson_load xr_open_dataset).
Local Abbreviation run_dispatch :=
  (dispatch fsspec_open ujson_load xr_open_dataset).
Local Abbreviation run_pipeline :=
  (pipeline fsspec_open ujson_load xr_open_dataset).

(** Once the header of a location resolves to a view, [process_file] is
    the selection on that view. *)
Lemma process_file_resolved (file_url : string) (ds : Dataset)
  (feature_id : list FeatureID) :
  (json_obj <- load_json file_url ;; load_ds json_obj) = Ok ds ->
  process file_url feature_id
  = (values <- select_flow ds feature_id ;; Ok (values, select_time ds)).
Proof.
  intros H. unfold process_file.
  destruct (load_json file_url) as [j|e]; simpl in *; [|discriminate].
  rewrite H. reflexivity.
Qed.

Lemma dispatch_length (files : list string) (feature_ids : list FeatureID)
  (result_values : list ExtractionResult) :
  run_dispatch files feature_ids = Ok result_values ->
  List.length result_values = List.length files.
Proof.
  unfold dispatch, Parallel. intros H.
  rewrite (sequence_length _ H). apply length_map.
Qed.

(** Submitting the same locations in another order gathers the same
    results in another order. *)
Lemma dispatch_Permutation (files files' : list string)
  (feature_ids : list FeatureID) (rs' : list ExtractionResult) :
  Permutation files files' ->
  run_dispatch files' feature_ids = Ok rs' ->
  exists rs, run_dispatch files feature_ids = Ok rs /\ Permutation rs rs'.
Proof.
  unfold dispatch, Parallel. intros P H.
  eapply sequence_Permutation; [|exact H].
  apply Permutation_map, P.
Qed.

(** C6.  When the header of a location resolves to a view whose
    [feature_id] labels are distinct, and every requested identifier is
    one of those labels, the extraction succeeds with one value per
    requested identifier: the values sequence has the length of [ids] and
    its [k]-th entry is the view's streamflow at the [k]-th identifier. *)
Theorem resolve_then_extract_aligned :
  forall (file_url : string) (H : Json) (view : Dataset)
         (ids : list FeatureID),
    load_json file_url = Ok H ->
    load_ds H = Ok view ->
    is_unique (feature_id_coord view) = true ->
    incl ids (feature_id_coord view) ->
    exists values,
      select_flow view ids = Ok values /\
      process file_url ids = Ok (values, select_time view) /\
      List.length values = List.length ids /\
      Forall2 (fun id v => In (id, v) (streamflow view)) ids values.
Proof.
  intros file_url H view ids HJ HD HU HI.
  destruct (lookup_labels_present (streamflow view) HI) as (vs & E & F).
  assert (S : select_flow view ids = Ok vs).
  { unfold select_flow, sel. unfold feature_id_coord in HU.
    rewrite HU, E. reflexivity. }
  exists vs. split; [exact S|]. split; [|split].
  - rewrite (@process_file_resolved file_url view ids).
    + rewrite S. reflexivity.
    + rewrite HJ. simpl. exact HD.
  - symmetry. eapply Forall2_length, F.
  - exact F.
Qed.

(** C5.  When exactly one location of the batch fails, the dispatch
    raises that location's exception, and so does the whole cell: no
    list of the other results, sorted or not, is produced. *)
Theorem dispatch_surfaces_single_failure :
  forall (pre : list string) (file_url : string) (post : list string)
         (feature_ids : list FeatureID) (e : exn),
    Forall (fun u => exists r, process u feature_ids = Ok r) pre ->
    Forall (fun u => exists r, process u feature_ids = Ok r) post ->
    process file_url feature_ids = Raise e ->
    run_dispatch (pre ++ file_url :: post) feature_ids = Raise e /\
    run_pipeline (pre ++ file_url :: post) feature_ids = Raise e /\
    (forall out, run_pipeline (pre ++ file_url :: post) feature_ids
                 <> Ok out).
Proof.
  intros pre file_url post feature_ids e Hpre _ Hfail.
  assert (D : run_dispatch (pre ++ file_url :: post) feature_ids = Raise e).
  { unfold dispatch, Parallel. rewrite map_app. simpl. rewrite Hfail.
    apply sequence_first_Raise.
    apply Forall_forall. intros m Hm. apply in_map_iff in Hm.
    destruct Hm as (u & <- & Hu). rewrite Forall_forall in Hpre.
    exact (Hpre u Hu). }
  assert (P : run_pipeline (pre ++ file_url :: post) feature_ids = Raise e).
  { unfold pipeline. rewrite D. reflexivity. }
  split; [exact D|]. split; [exact P|].
  intros out Hout. rewrite P in Hout. discriminate.
Qed.

(** C9.  The assembly neither drops nor duplicates results.  On gathered
    results that each carry a timestamp it succeeds; whenever it
    succeeds, the sorted list is a permutation of the gathered list and
    [Streamflow] and [Timestamp] have one entry per gathered result; and
    a successful dispatch gathers one result per location. *)
Theorem assembly_keeps_every_result :
  forall result_values : list ExtractionResult,
    (Forall (fun x => snd x <> []) result_values ->
     exists out, assemble result_values = Ok out) /\
    (forall Streamflow Timestamp,
        assemble result_values = Ok (Streamflow, Timestamp) ->
        exists sorted_values,
          sorted result_values = Ok sorted_values /\
          Permutation result_values sorted_values /\
          Streamflow = map fst sorted_values /\
          Timestamp = map snd sorted_values /\
          List.length Streamflow = List.length result_values /\
          List.length Timestamp = List.length result_values) /\
    (forall files feature_ids,
        run_dispatch files feature_ids = Ok result_values ->
        List.length result_values = List.length files).
Proof.
  intros l. split; [|split].
  - intros NE. rewrite (assemble_Ok NE). eexists. reflexivity.
  - intros Streamflow Timestamp H.
    destruct (timestamps_present_or_missing l) as [NE|EM].
    + rewrite (assemble_Ok NE) in H. injection H as <- <-.
      pose proof (sorted_Permutation l) as P.
      exists (map snd (sort_keyed (map keyed l))).
      split; [apply sorted_Ok, NE|]. split; [exact P|].
      split; [reflexivity|]. split; [reflexivity|].
      rewrite !length_map. rewrite <- !(length_map snd).
      split; symmetry; apply Permutation_length, P.
    + rewrite (assemble_Raise EM) in H. discriminate.
  - intros files feature_ids. apply dispatch_length.
Qed.

(** C1.  Three locations whose headers resolve to views over the features
    [10, 20] with single timesteps [t0 < t1 < t2] and streamflow values
    [1.0, 2.0], [1.1, 2.1], [1.2, 2.2]: in whatever order the locations
    are submitted, and in whatever order their results are gathered, the
    cell yields the rows in time order, so that the plotted series are
    10 -> [1.0, 1.1, 1.2] and 20 -> [2.0, 2.1, 2.2] and the timestamps are
    [t0, t1, t2]. *)
Theorem three_locations_end_to_end :
  forall (u0 u1 u2 : string) (t0 t1 t2 : Timestamp_t),
    t0 < t1 -> t1 < t2 ->
    (json_obj <- load_json u0 ;; load_ds json_obj)
    = Ok (mkDataset [(10, 1.0%float); (20, 2.0%float)] [t0]) ->
    (json_obj <- load_json u1 ;; load_ds json_obj)
    = Ok (mkDataset [(10, 1.1%float); (20, 2.1%float)] [t1]) ->
    (json_obj <- load_json u2 ;; load_ds json_obj)
    = Ok (mkDataset [(10, 1.2%float); (20, 2.2%float)] [t2]) ->
    let r0 : ExtractionResult := ([1.0; 2.0]%float, [t0]) in
    let r1 : ExtractionResult := ([1.1; 2.1]%float, [t1]) in
    let r2 : ExtractionResult := ([1.2; 2.2]%float, [t2]) in
    let Streamflow := [[1.0; 2.0]; [1.1; 2.1]; [1.2; 2.2]]%float in
    let Timestamp := [[t0]; [t1]; [t2]] in
    (forall files, Permutation files [u0; u1; u2] ->
       run_pipeline files [10; 20] = Ok (Streamflow, Timestamp)) /\
    (forall gathered, Permutation gathered [r0; r1; r2] ->
       assemble gathered = Ok (Streamflow, Timestamp)) /\
    plotted_series [10; 20] Streamflow
    = [(10, [1.0; 1.1; 1.2]%float); (20, [2.0; 2.1; 2.2]%float)] /\
    List.concat Timestamp = [t0; t1; t2].
Proof.
  intros u0 u1 u2 t0 t1 t2 H01 H12 E0 E1 E2 r0 r1 r2 Streamflow Timestamp.
  assert (NE : Forall (fun x : ExtractionResult => snd x <> [])
                      [r0; r1; r2]).
  { repeat constructor; discriminate. }
  assert (SS : StronglySorted Z.lt (map first_time [r0; r1; r2])).
  { cbv [map first_time r0 r1 r2 snd hd]. repeat constructor; lia. }
  assert (A : forall gathered, Permutation gathered [r0; r1; r2] ->
                assemble gathered = Ok (Streamflow, Timestamp)).
  { intros gathered P.
    rewrite (@assemble_Permutation_invariant [r0; r1; r2] gathered).
    - apply (assemble_of_sorted NE (StronglySorted_lt_le SS)).
    - apply Permutation_sym, P.
    - exact NE.
    - apply StronglySorted_lt_NoDup, SS. }
  assert (D : run_dispatch [u0; u1; u2] [10; 20] = Ok [r0; r1; r2]).
  { unfold dispatch, Parallel. simpl.
    rewrite (@process_file_resolved _ _ [10; 20] E0),
      (@process_file_resolved _ _ [10; 20] E1),
      (@process_file_resolved _ _ [10; 20] E2).
    reflexivity. }
  split; [|split; [exact A | split; reflexivity]].
  intros files P.
  destruct (@dispatch_Permutation files [u0; u1; u2] [10; 20] [r0; r1; r2]
              P D) as (rs & Hrs & Prs).
  unfold pipeline. rewrite Hrs. simpl. apply A, Prs.
Qed.

End PipelineFacts.

(** ** The statements on the example world *)

Lemma three_locations_end_to_end_witness :
  0 < 3600 /\ 3600 < 7200 /\
  (json_obj <- load_remote_json demo_open demo_load "u0" ;;
   load_remote_ds demo_dataset json_obj)
  = Ok (mkDataset [(10, 1.0%float); (20, 2.0%float)] [0]) /\
  (json_obj <- load_remote_json demo_open demo_load "u1" ;;
   load_remote_ds demo_dataset json_obj)
  = Ok (mkDataset [(10, 1.1%float); (20, 2.1%float)] [3600]) /\
  (json_obj <- load_remote_json demo_open demo_load "u2" ;;
   load_remote_ds demo_dataset json_obj)
  = Ok (mkDataset [(10, 1.2%float); (20, 2.2%float)] [7200]) /\
  pipeline demo_open demo_load demo_dataset ["u2"; "u0"; "u1"]%string [10; 20]
  = Ok ([[1.0; 2.0]; [1.1; 2.1]; [1.2; 2.2]]%float, [[0]; [3600]; [7200]]).
Proof.
  assert (H01 : 0 < 3600) by reflexivity.
  assert (H12 : 3600 < 7200) by reflexivity.
  split; [exact H01|]. split; [exact H12|].
  split; [reflexivity|]. split; [reflexivity|]. split; [reflexivity|].
  refine (proj1 (@three_locations_end_to_end
                   string string demo_open demo_load demo_dataset
                   "u0"%string "u1"%string "u2"%string 0 3600 7200
                   H01 H12 eq_refl eq_refl eq_refl)
                ["u2"; "u0"; "u1"]%string _).
  eapply perm_trans; [apply perm_swap | apply perm_skip, perm_swap].
Defined.

Lemma dispatch_surfaces_single_failure_witness :
  let process :=
    process_file demo_open demo_load demo_dataset in
  Forall (fun u => exists r, process u [10; 20] = Ok r) ["u0"%string] /\
  Forall (fun u => exists r, process u [10; 20] = Ok r) ["u2"%string] /\
  process "missing"%string [10; 20] = Raise OSError /\
  dispatch demo_open demo_load demo_dataset
           ["u0"; "missing"; "u2"]%string [10; 20] = Raise OSError /\
  pipeline demo_open demo_load demo_dataset
           ["u0"; "missing"; "u2"]%string [10; 20] = Raise OSError.
Proof.
  intros process.
  assert (Hpre : Forall (fun u => exists r, process u [10; 20] = Ok r)
                        ["u0"%string]).
  { constructor; [eexists; reflexivity | constructor]. }
  assert (Hpost : Forall (fun u => exists r, process u [10; 20] = Ok r)
                         ["u2"%string]).
  { constructor; [eexists; reflexivity | constructor]. }
  assert (Hfail : process "missing"%string [10; 20] = Raise OSError).
  { reflexivity. }
  split; [exact Hpre|]. split; [exact Hpost|]. split; [exact Hfail|].
  destruct (@dispatch_surfaces_single_failure
              string string demo_open demo_load demo_dataset
              ["u0"%string] "missing"%string ["u2"%string] [10; 20] OSError
              Hpre Hpost Hfail) as (D & P & _).
  split; [exact D | exact P].
Defined.

Lemma resolve_then_extract_aligned_witness :
  let view := demo_view 1.1%float 2.1%float 3600 in
  load_remote_json demo_open demo_load "u1" = Ok "u1"%string /\
  load_remote_ds demo_dataset "u1"%string = Ok view /\
  is_unique (feature_id_coord view) = true /\
  incl [20; 10] (feature_id_coord view) /\
  exists values,
    select_flow view [20; 10] = Ok values /\
    process_file demo_open demo_load demo_dataset "u1" [20; 10]
    = Ok (values, select_time view) /\
    List.length values = 2%nat /\
    Forall2 (fun id v => In (id, v) (streamflow view)) [20; 10] values.
Proof.
  intros view.
  assert (HJ : load_remote_json demo_open demo_load "u1" = Ok "u1"%string).
  { reflexivity. }
  assert (HD : load_remote_ds demo_dataset "u1"%string = Ok view).
  { reflexivity. }
  assert (HU : is_unique (feature_id_coord view) = true).
  { reflexivity. }
  assert (HI : incl [20; 10] (feature_id_coord view)).
  { intros x [<-|[<-|[]]]; simpl; [right; left | left]; reflexivity. }
  split; [exact HJ|]. split; [exact HD|]. split; [exact HU|].
  split; [exact HI|].
  exact (@resolve_then_extract_aligned
           string string demo_open demo_load demo_dataset
           "u1"%string "u1"%string view [20; 10] HJ HD HU HI).
Defined.

Lemma assembly_keeps_every_result_witness :
  let result_values : list ExtractionResult :=
    [([1.2; 2.2]%float, [7200]); ([1.0; 2.0]%float, [0]);
     ([1.1; 2.1]%float, [3600])] in
  Forall (fun x => snd x <> []) result_values /\
  exists out, assemble result_values = Ok out.
Proof.
  intros result_values.
  assert (NE : Forall (fun x : ExtractionResult => snd x <> [])
                      result_values).
  { repeat constructor; discriminate. }
  split; [exact NE|].
  exact (proj1 (@assembly_keeps_every_result
                  string string demo_open demo_load demo_dataset
                  result_values) NE).
Defined.

(** * Further properties *)

(** ** The location list: lines and trimming *)

Lemma contains_app (c : ascii) (a b : string) :
  contains c (a ++ b) = contains c a || contains c b.
Proof.
  induction a as [|x a IH]; simpl.
  - reflexivity.
  - rewrite IH. apply orb_assoc.
Qed.

Lemma universal_newlines_no_CR_id (s : string) :
  contains CR s = false -> universal_newlines s = s.
Proof.
  induction s as [|c t IH]; simpl; intros H.
  - reflexivity.
  - apply orb_false_iff in H. destruct H as [Hc Ht].
    rewrite Hc. rewrite (IH Ht). reflexivity.
Qed.

(** The translation leaves no carriage return. *)
Lemma universal_newlines_no_CR (s : string) :
  contains CR (universal_newlines s) = false.
Proof.
  enough (H : contains CR (universal_newlines s) = false /\
              forall c, contains CR (universal_newlines (String c s)) = false)
    by apply H.
  induction s as [|a t [IH1 IH2]].
  - split; [reflexivity|]. intros c. simpl.
    destruct (Ascii.eqb c CR) eqn:E; simpl; [reflexivity|].
    rewrite E. reflexivity.
  - split; [apply IH2|]. intros c.
    change (universal_newlines (String c (String a t)))
      with (if Ascii.eqb c CR
            then if Ascii.eqb a LF
                 then String LF (universal_newlines t)
                 else String LF (universal_newlines (String a t))
            else String c (universal_newlines (String a t))).
    destruct (Ascii.eqb c CR) eqn:E.
    + destruct (Ascii.eqb a LF).
      * simpl. exact IH1.
      * change (contains CR (String LF (universal_newlines (String a t))))
          with (Ascii.eqb LF CR
                || contains CR (universal_newlines (String a t))).
        rewrite (IH2 a). reflexivity.
    + change (contains CR (String c (universal_newlines (String a t))))
        with (Ascii.eqb c CR
              || contains CR (universal_newlines (String a t))).
      rewrite E, (IH2 a). reflexivity.
Qed.

Lemma readlines_nil (s : string) : readlines s = [] -> s = EmptyString.
Proof.
  destruct s as [|c t]; simpl; [reflexivity|].
  destruct (Ascii.eqb c LF); [discriminate|].
  destruct (readlines t); discriminate.
Qed.

(** A text that starts with a line without line feed, then a line feed. *)
Lemma readlines_line (u rest : string) :
  contains LF u = false ->
  readlines (u ++ nl ++ rest) = (u ++ nl)%string :: readlines rest.
Proof.
  induction u as [|c u IH]; intros H; simpl in *.
  - reflexivity.
  - apply orb_false_iff in H. destruct H as [Hc Hu].
    rewrite Hc, (IH Hu). reflexivity.
Qed.

Lemma readlines_app_nl (s rest : string) :
  readlines (s ++ nl ++ rest) = readlines (s ++ nl) ++ readlines rest.
Proof.
  induction s as [|c s IH]; simpl in *.
  - reflexivity.
  - destruct (Ascii.eqb c LF).
    + rewrite IH. reflexivity.
    + rewrite IH. destruct (readlines (s ++ nl)) as [|l ls] eqn:E.
      * apply readlines_nil in E. destruct s; discriminate.
      * reflexivity.
Qed.

(** Every line is a stretch without line feed, followed or not by one. *)
Lemma readlines_shape (s : string) :
  Forall (fun line => exists body,
            contains LF body = false /\
            (line = (body ++ nl)%string \/ line = body))
         (readlines s).
Proof.
  induction s as [|c t IH]; simpl.
  - constructor.
  - destruct (Ascii.eqb c LF) eqn:E.
    + constructor; [|exact IH].
      exists EmptyString. split; [reflexivity|]. left.
      apply Ascii.eqb_eq in E. subst c. reflexivity.
    + destruct (readlines t) as [|l ls].
      * constructor; [|constructor].
        exists (String c EmptyString). simpl. rewrite E. split; auto.
      * apply Forall_cons_iff in IH. destruct IH as [(body & Hb & Hl) IH].
        constructor; [|exact IH].
        exists (String c body). simpl. rewrite E, Hb.
        split; [reflexivity|]. destruct Hl as [->| ->]; auto.
Qed.

Lemma readlines_no_CR (s : string) :
  contains CR s = false ->
  Forall (fun line => contains CR line = false) (readlines s).
Proof.
  induction s as [|c t IH]; simpl; intros H.
  - constructor.
  - apply orb_false_iff in H. destruct H as [Hc Ht]. specialize (IH Ht).
    destruct (Ascii.eqb c LF).
    + constructor; [simpl; rewrite Hc; reflexivity | exact IH].
    + destruct (readlines t) as [|l ls].
      * constructor; [simpl; rewrite Hc; reflexivity | constructor].
      * apply Forall_cons_iff in IH. destruct IH as [Hl IH].
        constructor; [simpl; rewrite Hc, Hl; reflexivity | exact IH].
Qed.

Lemma rstrip_all_space (w : string) :
  all_space w = true -> rstrip w = EmptyString.
Proof.
  induction w as [|c w IH]; simpl; intros H.
  - reflexivity.
  - apply andb_true_iff in H. destruct H as [Hc Hw].
    rewrite (IH Hw), Hc. reflexivity.
Qed.

Lemma rstrip_app_space (s w : string) :
  all_space w = true -> rstrip (s ++ w) = rstrip s.
Proof.
  intros H. induction s as [|c s IH]; simpl.
  - apply rstrip_all_space, H.
  - rewrite IH. reflexivity.
Qed.

Lemma rstrip_fixed (s : string) :
  ends_with_space s = false -> rstrip s = s.
Proof.
  induction s as [|c t IH]; intros H.
  - reflexivity.
  - destruct t as [|c' t'].
    + simpl in *. rewrite H. reflexivity.
    + change (ends_with_space (String c' t') = false) in H.
      change (rstrip (String c (String c' t')))
        with (match rstrip (String c' t') with
              | EmptyString =>
                  if isspace c then EmptyString else String c EmptyString
              | String a b => String c (String a b)
              end).
      rewrite (IH H). reflexivity.
Qed.

Lemma lstrip_fixed (s : string) :
  starts_with_space s = false -> lstrip s = s.
Proof.
  destruct s as [|c t]; simpl; intros H; [reflexivity|].
  rewrite H. reflexivity.
Qed.

Lemma lstrip_all_space (w : string) :
  all_space w = true -> lstrip w = EmptyString.
Proof.
  induction w as [|c w IH]; simpl; intros H.
  - reflexivity.
  - apply andb_true_iff in H. destruct H as [Hc Hw].
    rewrite Hc. apply IH, Hw.
Qed.

Lemma all_space_app (a b : string) :
  all_space (a ++ b) = all_space a && all_space b.
Proof.
  induction a as [|c a IH]; simpl.
  - reflexivity.
  - rewrite IH. apply andb_assoc.
Qed.

Lemma lstrip_app (s w : string) :
  all_space s = false -> lstrip (s ++ w) = (lstrip s ++ w)%string.
Proof.
  induction s as [|c s IH]; simpl; intros H.
  - discriminate.
  - destruct (isspace c); simpl in H; [apply IH, H | reflexivity].
Qed.

(** Whitespace added at the end of a line does not change what trimming
    leaves. *)
Lemma strip_app_space (s w : string) :
  all_space w = true -> strip (s ++ w) = strip s.
Proof.
  intros H. unfold strip.
  destruct (all_space s) eqn:E.
  - rewrite (@lstrip_all_space s E).
    rewrite lstrip_all_space by (rewrite all_space_app, E, H; reflexivity).
    reflexivity.
  - rewrite (@lstrip_app s w E). apply rstrip_app_space, H.
Qed.

Lemma strip_fixed (s : string) :
  starts_with_space s = false -> ends_with_space s = false -> strip s = s.
Proof.
  intros H1 H2. unfold strip. rewrite (@lstrip_fixed s H1).
  apply rstrip_fixed, H2.
Qed.

Lemma trimmed_of_contains (c : ascii) (line url : string) :
  trimmed_of line url -> contains c line = false -> contains c url = false.
Proof.
  intros (pre & post & E & _) H. subst line.
  rewrite !contains_app in H.
  apply orb_false_iff in H. destruct H as [_ H].
  apply orb_false_iff in H. apply H.
Qed.

Lemma all_space_nl : all_space nl = true.
Proof. reflexivity. Qed.

Lemma strip_line_no_break (line : string) :
  (exists body, contains LF body = false /\
                (line = (body ++ nl)%string \/ line = body)) ->
  contains LF (strip line) = false.
Proof.
  intros (body & Hb & [->| ->]).
  - rewrite (@strip_app_space body nl all_space_nl).
    exact (@trimmed_of_contains LF body (strip body) (strip_trimmed body) Hb).
  - exact (@trimmed_of_contains LF body (strip body) (strip_trimmed body) Hb).
Qed.

Lemma clean_location_inv (u : string) :
  clean_location u = true ->
  contains LF u = false /\ contains CR u = false /\
  starts_with_space u = false /\ ends_with_space u = false.
Proof.
  unfold clean_location. rewrite !andb_true_iff, !negb_true_iff. tauto.
Qed.

Lemma lines_text_no_CR (urls : list string) (rest : string) :
  Forall (fun u => clean_location u = true) urls ->
  contains CR rest = false ->
  contains CR (lines_text urls ++ rest) = false.
Proof.
  induction 1 as [|u us Hu _ IH]; intros Hr; simpl.
  - exact Hr.
  - apply clean_location_inv in Hu. destruct Hu as (_ & Hc & _).
    rewrite !append_assoc, contains_app, Hc. simpl. apply IH, Hr.
Qed.

Lemma readlines_lines_text (urls : list string) (rest : string) :
  Forall (fun u => clean_location u = true) urls ->
  readlines (lines_text urls ++ rest)
  = map (fun u => (u ++ nl)%string) urls ++ readlines rest.
Proof.
  induction 1 as [|u us Hu _ IH]; cbn [lines_text map app].
  - reflexivity.
  - apply clean_location_inv in Hu. destruct Hu as (Hl & _).
    rewrite !append_assoc.
    rewrite (@readlines_line u (lines_text us ++ rest) Hl), IH.
    reflexivity.
Qed.

Lemma map_strip_lines (urls : list string) :
  Forall (fun u => clean_location u = true) urls ->
  map strip (map (fun u => (u ++ nl)%string) urls) = urls.
Proof.
  induction 1 as [|u us Hu _ IH]; simpl.
  - reflexivity.
  - apply clean_location_inv in Hu. destruct Hu as (_ & _ & Hs & He).
    rewrite (@strip_app_space u nl all_space_nl), (@strip_fixed u Hs He), IH.
    reflexivity.
Qed.

Lemma readlines_single (u : string) :
  contains LF u = false -> u <> EmptyString -> readlines u = [u].
Proof.
  induction u as [|c u IH]; intros H N; simpl in *.
  - congruence.
  - apply orb_false_iff in H. destruct H as [Hc Hu]. rewrite Hc.
    destruct u as [|c' u'].
    + reflexivity.
    + rewrite (IH Hu) by discriminate. reflexivity.
Qed.

Lemma append_nil_r (s : string) : (s ++ EmptyString)%string = s.
Proof.
  induction s as [|c s IH]; simpl; [reflexivity | rewrite IH; reflexivity].
Qed.

(** X1.  Round trip with a line-oriented writer: a text that holds clean
    entries (no line break inside, no whitespace at either end) one per
    line reads back as exactly those entries, in order; an empty entry
    reads back as an empty entry, and a last line without terminator
    counts as a line. *)
Theorem read_files_lines_text_round_trip :
  forall urls : list string,
    Forall (fun u => clean_location u = true) urls ->
    read_files (lines_text urls) = urls /\
    (forall last, clean_location last = true -> last <> EmptyString ->
       read_files (lines_text urls ++ last) = urls ++ [last]).
Proof.
  intros urls H. split.
  - rewrite read_files_map.
    rewrite <- (append_nil_r (lines_text urls)).
    rewrite universal_newlines_no_CR_id
      by (apply lines_text_no_CR; [exact H | reflexivity]).
    rewrite (@readlines_lines_text urls EmptyString H). simpl.
    rewrite app_nil_r. apply map_strip_lines, H.
  - intros last Hc Hn. rewrite read_files_map.
    pose proof (clean_location_inv _ Hc) as (Hl & Hr & Hs & He).
    rewrite universal_newlines_no_CR_id
      by (apply lines_text_no_CR; [exact H | exact Hr]).
    rewrite (@readlines_lines_text urls last H).
    rewrite (@readlines_single last Hl Hn).
    rewrite map_app, (map_strip_lines H). simpl.
    rewrite (@strip_fixed last Hs He). reflexivity.
Qed.

Lemma read_files_lines_text_round_trip_witness :
  let urls := ["https://host/a.json"; ""; "https://host/b.json"]%string in
  Forall (fun u => clean_location u = true) urls /\
  read_files (lines_text urls) = urls.
Proof.
  intros urls.
  assert (H : Forall (fun u => clean_location u = true) urls).
  { repeat constructor. }
  split; [exact H|].
  exact (proj1 (@read_files_lines_text_round_trip urls H)).
Defined.

(** X2.  Every entry of the list read from a text is clean: it contains
    neither a line feed nor a carriage return, it neither starts nor ends
    with whitespace, and trimming it again changes nothing. *)
Theorem read_files_entries_clean :
  forall (text url : string),
    In url (read_files text) ->
    clean_location url = true /\ strip url = url.
Proof.
  intros text url H. rewrite read_files_map in H.
  apply in_map_iff in H. destruct H as (line & <- & Hin).
  pose proof (readlines_shape (universal_newlines text)) as SH.
  pose proof (readlines_no_CR _ (universal_newlines_no_CR text)) as NC.
  rewrite Forall_forall in SH, NC.
  pose proof (strip_line_no_break (SH _ Hin)) as HL.
  pose proof (@trimmed_of_contains CR line (strip line)
                (strip_trimmed line) (NC _ Hin)) as HC.
  destruct (strip_trimmed line) as (pre & post & _ & _ & _ & Hs & He).
  split.
  - unfold clean_location. rewrite HL, HC, Hs, He. reflexivity.
  - apply strip_fixed; assumption.
Qed.

Lemma read_files_entries_clean_witness :
  let text := ("  u0 " ++ String CR nl ++ nl ++ "u1")%string in
  In "u0"%string (read_files text) /\
  clean_location "u0" = true /\ strip "u0" = "u0"%string.
Proof.
  intros text.
  assert (H : In "u0"%string (read_files text)).
  { left. reflexivity. }
  split; [exact H|].
  exact (@read_files_entries_clean text "u0"%string H).
Defined.

Lemma universal_newlines_cons2 (c a : ascii) (t : string) :
  universal_newlines (String c (String a t))
  = if Ascii.eqb c CR
    then if Ascii.eqb a LF
         then String LF (universal_newlines t)
         else String LF (universal_newlines (String a t))
    else String c (universal_newlines (String a t)).
Proof. reflexivity. Qed.

(** The translation of a text cut after a line feed is the translation of
    the two parts. *)
Lemma universal_newlines_app_nl (a b : string) :
  universal_newlines (a ++ nl ++ b)
  = (universal_newlines (a ++ nl) ++ universal_newlines b)%string.
Proof.
  enough (H : (forall b, universal_newlines (a ++ nl ++ b)
                 = (universal_newlines (a ++ nl) ++ universal_newlines b)
                   %string) /\
              (forall c b, universal_newlines (String c a ++ nl ++ b)
                 = (universal_newlines (String c a ++ nl)
                    ++ universal_newlines b)%string))
    by apply H.
  clear b. induction a as [|x t [IH1 IH2]].
  - split.
    + intros b. reflexivity.
    + intros c b. unfold nl. cbn [append].
      rewrite !universal_newlines_cons2.
      destruct (Ascii.eqb c CR); reflexivity.
  - split; [apply IH2|]. intros c b.
    cbn [append]. rewrite !universal_newlines_cons2.
    destruct (Ascii.eqb c CR).
    + destruct (Ascii.eqb x LF).
      * cbn [append]. f_equal. apply IH1.
      * cbn [append]. f_equal. apply (IH2 x b).
    + cbn [append]. f_equal. apply (IH2 x b).
Qed.

Lemma universal_newlines_ends_nl (a : string) :
  exists s, universal_newlines (a ++ nl) = (s ++ nl)%string.
Proof.
  enough (H : (exists s, universal_newlines (a ++ nl) = (s ++ nl)%string) /\
              (forall c, exists s,
                  universal_newlines (String c a ++ nl) = (s ++ nl)%string))
    by apply H.
  induction a as [|x t [IH1 IH2]].
  - split.
    + exists EmptyString. reflexivity.
    + intros c. unfold nl. cbn [append]. rewrite universal_newlines_cons2.
      destruct (Ascii.eqb c CR).
      * exists EmptyString. reflexivity.
      * exists (String c EmptyString). reflexivity.
  - split; [apply IH2|]. intros c.
    cbn [append]. rewrite universal_newlines_cons2.
    destruct (Ascii.eqb c CR).
    + destruct (Ascii.eqb x LF).
      * destruct IH1 as (s & E). exists (String LF s). rewrite E. reflexivity.
      * destruct (IH2 x) as (s & E). exists (String LF s).
        cbn [append] in E. rewrite E. reflexivity.
    + destruct (IH2 x) as (s & E). exists (String c s).
      cbn [append] in E. rewrite E. reflexivity.
Qed.

(** X3.  A text cut after a line end reads as the two parts read one after
    the other: the entries of the first part followed by the entries of
    the second. *)
Theorem read_files_app_line_end :
  forall a b : string,
    read_files (a ++ nl ++ b) = read_files (a ++ nl) ++ read_files b.
Proof.
  intros a b. rewrite !read_files_map, universal_newlines_app_nl.
  destruct (universal_newlines_ends_nl a) as (s & E). rewrite E.
  rewrite append_assoc, readlines_app_nl. apply map_app.
Qed.

(** ** Label selection: when it succeeds and how it composes *)

Lemma lookup_labels_Some_incl (da : list (FeatureID * Flow))
  (labels : list FeatureID) (vs : list Flow) :
  lookup_labels da labels = Some vs -> incl labels (map fst da).
Proof.
  revert vs. induction labels as [|l ls IH]; simpl; intros vs H.
  - intros x [].
  - destruct (lookup_label da l) as [v|] eqn:L; [|discriminate].
    destruct (lookup_labels da ls) as [vs'|]; [|discriminate].
    intros x [E|Hx].
    + subst x.
      destruct (in_dec Z.eq_dec l (map fst da)) as [I|N]; [exact I|].
      apply lookup_label_None in N. congruence.
    + exact (IH vs' eq_refl x Hx).
Qed.

Lemma lookup_labels_app (da : list (FeatureID * Flow))
  (a b : list FeatureID) :
  lookup_labels da (a ++ b)
  = match lookup_labels da a, lookup_labels da b with
    | Some va, Some vb => Some (va ++ vb)
    | _, _ => None
    end.
Proof.
  induction a as [|l a IH]; simpl.
  - destruct (lookup_labels da b); reflexivity.
  - rewrite IH. destruct (lookup_label da l); [|reflexivity].
    destruct (lookup_labels da a); [|reflexivity].
    destruct (lookup_labels da b); reflexivity.
Qed.

Lemma lookup_label_In (da : list (FeatureID * Flow)) (label : FeatureID)
  (v : Flow) :
  NoDup (map fst da) -> In (label, v) da -> lookup_label da label = Some v.
Proof.
  induction da as [|[l w] t IH]; simpl; intros ND H.
  - contradiction.
  - apply NoDup_cons_iff in ND. destruct ND as [Hl ND].
    destruct (Z.eqb_spec l label) as [E|N].
    + destruct H as [H|H].
      * congruence.
      * exfalso. apply Hl. subst l.
        change label with (fst (label, v)). apply in_map, H.
    + destruct H as [H|H]; [congruence | apply IH; assumption].
Qed.

Lemma lookup_label_Permutation (da da' : list (FeatureID * Flow))
  (label : FeatureID) :
  NoDup (map fst da) -> Permutation da da' ->
  lookup_label da label = lookup_label da' label.
Proof.
  intros ND P.
  assert (ND' : NoDup (map fst da')).
  { eapply Permutation_NoDup; [apply Permutation_map, P | exact ND]. }
  destruct (lookup_label da label) as [v|] eqn:L.
  - symmetry. apply lookup_label_In; [exact ND'|].
    eapply Permutation_in; [exact P | apply lookup_label_Some, L].
  - symmetry. apply lookup_label_None. apply lookup_label_None in L.
    intros I. apply L.
    eapply Permutation_in; [apply Permutation_sym, Permutation_map, P|].
    exact I.
Qed.

Lemma select_flow_unfold (ds : Dataset) (ids : list FeatureID) :
  select_flow ds ids
  = if is_unique (feature_id_coord ds)
    then match lookup_labels (streamflow ds) ids with
         | Some vs => Ok vs
         | None => Raise KeyError
         end
    else Raise InvalidIndexError.
Proof.
  unfold select_flow, sel, feature_id_coord.
  destruct (is_unique (map fst (streamflow ds))); [|reflexivity].
  destruct (lookup_labels (streamflow ds) ids); reflexivity.
Qed.

(** X4.  [select_flow] returns values exactly when the labels of the
    view's [feature_id] coordinate are distinct and every requested
    identifier is one of them; repeated identifiers in the request are
    allowed. *)
Theorem select_flow_succeeds_iff :
  forall (ds : Dataset) (ids : list FeatureID),
    (exists values, select_flow ds ids = Ok values) <->
    is_unique (feature_id_coord ds) = true /\
    incl ids (feature_id_coord ds).
Proof.
  intros ds ids. rewrite select_flow_unfold. split.
  - intros (values & H).
    destruct (is_unique (feature_id_coord ds)); [|discriminate].
    split; [reflexivity|].
    destruct (lookup_labels (streamflow ds) ids) as [vs|] eqn:L;
      [|discriminate].
    exact (lookup_labels_Some_incl _ _ L).
  - intros [HU HI]. rewrite HU.
    destruct (lookup_labels_present (streamflow ds) HI) as (vs & E & _).
    rewrite E. exists vs. reflexivity.
Qed.

(** X5.  Selection distributes over a request made of two parts: the
    request [a ++ b] succeeds exactly when both parts do, and its values
    are the values for [a] followed by the values for [b]. *)
Theorem select_flow_app :
  forall (ds : Dataset) (a b : list FeatureID) (values : list Flow),
    select_flow ds (a ++ b) = Ok values <->
    exists va vb,
      select_flow ds a = Ok va /\ select_flow ds b = Ok vb /\
      values = va ++ vb.
Proof.
  intros ds a b values. rewrite !select_flow_unfold, lookup_labels_app.
  destruct (is_unique (feature_id_coord ds)).
  - destruct (lookup_labels (streamflow ds) a) as [va|];
      destruct (lookup_labels (streamflow ds) b) as [vb|]; split.
    + intros H. exists va, vb. repeat split. congruence.
    + intros (va' & vb' & Ha & Hb & ->). congruence.
    + discriminate.
    + intros (va' & vb' & Ha & Hb & _). discriminate.
    + discriminate.
    + intros (va' & vb' & Ha & Hb & _). discriminate.
    + discriminate.
    + intros (va' & vb' & Ha & Hb & _). discriminate.
  - split; [discriminate|].
    intros (va' & vb' & Ha & _). discriminate.
Qed.

(** X6.  Selection is by label, not by position: two views that store the
    same labelled values in different orders, with distinct labels, give
    the same answer to every request. *)
Theorem select_flow_storage_order :
  forall (ds ds' : Dataset) (ids : list FeatureID),
    is_unique (feature_id_coord ds) = true ->
    Permutation (streamflow ds) (streamflow ds') ->
    select_flow ds' ids = select_flow ds ids.
Proof.
  intros ds ds' ids HU P. rewrite !select_flow_unfold.
  pose proof (proj1 (is_unique_NoDup _) HU) as ND.
  assert (HU' : is_unique (feature_id_coord ds') = true).
  { apply is_unique_NoDup. unfold feature_id_coord in *.
    eapply Permutation_NoDup; [apply Permutation_map, P | exact ND]. }
  rewrite HU, HU'.
  assert (E : lookup_labels (streamflow ds') ids
              = lookup_labels (streamflow ds) ids).
  { induction ids as [|l ls IH]; simpl; [reflexivity|].
    rewrite IH.
    rewrite (@lookup_label_Permutation (streamflow ds) (streamflow ds') l
               ND P).
    reflexivity. }
  rewrite E. reflexivity.
Qed.

Lemma select_flow_storage_order_witness :
  let ds := mkDataset [(10, 1.5%float); (20, 2.5%float)] [0] in
  let ds' := mkDataset [(20, 2.5%float); (10, 1.5%float)] [0] in
  is_unique (feature_id_coord ds) = true /\
  Permutation (streamflow ds) (streamflow ds') /\
  select_flow ds' [20; 10; 20] = select_flow ds [20; 10; 20].
Proof.
  intros ds ds'.
  assert (HU : is_unique (feature_id_coord ds) = true) by reflexivity.
  assert (P : Permutation (streamflow ds) (streamflow ds')).
  { apply perm_swap. }
  split; [exact HU|]. split; [exact P|].
  exact (@select_flow_storage_order ds ds' [20; 10; 20] HU P).
Defined.

(** ** The assembly: order, pairing and repetition *)

Lemma assemble_Ok_inv (l : list ExtractionResult)
  (S : list (list Flow)) (T : list (list Timestamp_t)) :
  assemble l = Ok (S, T) ->
  Forall (fun x => snd x <> []) l /\
  S = map fst (map snd (sort_keyed (map keyed l))) /\
  T = map snd (map snd (sort_keyed (map keyed l))).
Proof.
  intros H. destruct (timestamps_present_or_missing l) as [NE|EM].
  - rewrite (assemble_Ok NE) in H. injection H as <- <-. auto.
  - rewrite (assemble_Raise EM) in H. discriminate.
Qed.

Lemma combine_fst_snd {A B : Type} (l : list (A * B)) :
  combine (map fst l) (map snd l) = l.
Proof.
  induction l as [|[a b] l IH]; simpl; [reflexivity | rewrite IH; reflexivity].
Qed.

Lemma nth_error_fst_snd {A B : Type} (l : list (A * B)) (i : nat)
  (a : A) (b : B) :
  nth_error (map fst l) i = Some a ->
  nth_error (map snd l) i = Some b ->
  nth_error l i = Some (a, b).
Proof.
  revert i. induction l as [|[x y] l IH]; intros [|i]; simpl;
    try discriminate.
  - intros Ha Hb. congruence.
  - apply IH.
Qed.


(** X9.  [Streamflow] and [Timestamp] stay paired: they have the same
    length, row [i] of the one and row [i] of the other come from the same
    gathered result, and pairing them row by row gives back the sorted
    results. *)
Theorem assembled_rows_stay_paired :
  forall (result_values : list ExtractionResult)
         (Streamflow : list (list Flow))
         (Timestamp : list (list Timestamp_t)),
    assemble result_values = Ok (Streamflow, Timestamp) ->
    List.length Streamflow = List.length Timestamp /\
    sorted result_values = Ok (combine Streamflow Timestamp) /\
    forall i s t,
      nth_error Streamflow i = Some s ->
      nth_error Timestamp i = Some t ->
      In (s, t) result_values.
Proof.
  intros l S T H.
  destruct (@assemble_Ok_inv l S T H) as (NE & -> & ->).
  set (srt := map snd (sort_keyed (map keyed l))).
  split; [rewrite !length_map; reflexivity|]. split.
  - rewrite combine_fst_snd. apply sorted_Ok, NE.
  - intros i s t Hs Ht.
    pose proof (nth_error_fst_snd srt i Hs Ht) as E.
    eapply Permutation_in.
    + apply Permutation_sym, (sorted_Permutation l).
    + eapply nth_error_In, E.
Qed.

Lemma assembled_rows_stay_paired_witness :
  let result_values : list ExtractionResult :=
    [([3%float], [30]); ([1%float], [10])] in
  assemble result_values = Ok ([[1%float]; [3%float]], [[10]; [30]]) /\
  sorted result_values
  = Ok (combine [[1%float]; [3%float]] [[10]; [30]]).
Proof.
  intros result_values.
  assert (H : assemble result_values
              = Ok ([[1%float]; [3%float]], [[10]; [30]])) by reflexivity.
  split; [exact H|].
  exact (proj1 (proj2 (@assembled_rows_stay_paired result_values
                         [[1%float]; [3%float]] [[10]; [30]] H))).
Defined.

(** X10.  Assembling is idempotent: pairing the assembled rows and
    assembling them again returns the same [Streamflow] and
    [Timestamp]. *)
Theorem assemble_idempotent :
  forall (result_values : list ExtractionResult)
         (Streamflow : list (list Flow))
         (Timestamp : list (list Timestamp_t)),
    assemble result_values = Ok (Streamflow, Timestamp) ->
    assemble (combine Streamflow Timestamp) = Ok (Streamflow, Timestamp).
Proof.
  intros l S T H.
  destruct (@assemble_Ok_inv l S T H) as (NE & -> & ->).
  rewrite combine_fst_snd.
  apply assemble_of_sorted.
  - eapply Permutation_Forall; [apply sorted_Permutation | exact NE].
  - apply sorted_first_times.
Qed.

Lemma assemble_idempotent_witness :
  let result_values : list ExtractionResult :=
    [([3%float], [30]); ([1%float], [10])] in
  assemble result_values = Ok ([[1%float]; [3%float]], [[10]; [30]]) /\
  assemble (combine [[1%float]; [3%float]] [[10]; [30]])
  = Ok ([[1%float]; [3%float]], [[10]; [30]]).
Proof.
  intros result_values.
  assert (H : assemble result_values
              = Ok ([[1%float]; [3%float]], [[10]; [30]])) by reflexivity.
  split; [exact H|].
  exact (@assemble_idempotent result_values
           [[1%float]; [3%float]] [[10]; [30]] H).
Defined.

(** ** Gathering: success, failure and the whole cell *)

Lemma sequence_Ok_iff {A : Type} (ms : list (result A)) (l : list A) :
  sequence ms = Ok l <-> Forall2 (fun m a => m = Ok a) ms l.
Proof.
  revert l. induction ms as [|m ms IH]; intros l; simpl.
  - split.
    + intros H. injection H as <-. constructor.
    + intros H. inversion H. reflexivity.
  - split.
    + intros H. destruct m as [a|e]; simpl in H; [|discriminate].
      destruct (sequence ms) as [r|e] eqn:E; simpl in H; [|discriminate].
      injection H as <-. constructor; [reflexivity | apply IH; reflexivity].
    + intros H. inversion H as [|m' a ms' r Hm Hr]; subst.
      apply IH in Hr. rewrite Hr. reflexivity.
Qed.

Lemma sequence_Raise_In {A : Type} (ms : list (result A)) (e : exn) :
  sequence ms = Raise e -> In (Raise e) ms.
Proof.
  induction ms as [|m ms IH]; simpl; intros H.
  - discriminate.
  - destruct m as [a|e']; simpl in H.
    + right. apply IH. destruct (sequence ms); simpl in H;
        [discriminate | exact H].
    + left. injection H as ->. reflexivity.
Qed.

Lemma sequence_In_Raise {A : Type} (ms : list (result A)) (e : exn) :
  In (Raise e) ms -> exists e', sequence ms = Raise e'.
Proof.
  induction ms as [|m ms IH]; simpl; intros H.
  - contradiction.
  - destruct m as [a|e'].
    + destruct H as [H|H]; [discriminate|].
      destruct (IH H) as (e'' & E). rewrite E. exists e''. reflexivity.
    + exists e'. reflexivity.
Qed.

(** When every failing task raises the same exception and one task fails,
    that exception is the outcome. *)
Lemma sequence_single_kind {A : Type} (ms : list (result A)) (e : exn) :
  Forall (fun m => (exists a, m = Ok a) \/ m = Raise e) ms ->
  In (Raise e) ms ->
  sequence ms = Raise e.
Proof.
  intros F I. destruct (sequence_In_Raise _ _ I) as (e' & E).
  pose proof (sequence_Raise_In _ E) as I'.
  rewrite Forall_forall in F. destruct (F _ I') as [(a & Ha)|Ha].
  - discriminate.
  - rewrite E. injection Ha as ->. reflexivity.
Qed.

Section PipelineFurther.
Variables Bytes Json : Type.
Variable fsspec_open : string -> result Bytes.
Variable ujson_load : Bytes -> result Json.
Variable xr_open_dataset : Json -> result Dataset.

Local Abbreviation load_json := (load_remote_json fsspec_open ujson_load).
Local Abbreviation load_ds := (load_remote_ds xr_open_dataset).
Local Abbreviation process :=
  (process_file fsspec_open ujson_load xr_open_dataset).
Local Abbreviation run_dispatch :=
  (dispatch fsspec_open ujson_load xr_open_dataset).
Local Abbreviation run_pipeline :=
  (pipeline fsspec_open ujson_load xr_open_dataset).

Lemma process_file_chain (file_url : string) (feature_id : list FeatureID) :
  process file_url feature_id
  = (ds <- (json_obj <- load_json file_url ;; load_ds json_obj) ;;
     values <- select_flow ds feature_id ;;
     Ok (values, select_time ds)).
Proof.
  unfold process_file.
  destruct (load_json file_url) as [j|e]; simpl; reflexivity.
Qed.

(** X13.  The dispatch returns a list exactly when every location's
    [process_file] returned, and the list then holds those results in
    the order of [files]. *)
Theorem dispatch_succeeds_iff :
  forall (files : list string) (feature_ids : list FeatureID)
         (result_values : list ExtractionResult),
    run_dispatch files feature_ids = Ok result_values <->
    Forall2 (fun file_url r => process file_url feature_ids = Ok r)
            files result_values.
Proof.
  intros files ids rs. unfold dispatch, Parallel.
  rewrite sequence_Ok_iff. revert rs.
  induction files as [|u files IH]; intros rs; simpl; split; intros H.
  - inversion H. constructor.
  - inversion H. constructor.
  - inversion H as [|m a ms r Hm Hr]; subst.
    constructor; [exact Hm | apply IH, Hr].
  - inversion H as [|m a ms r Hm Hr]; subst.
    constructor; [exact Hm | apply IH, Hr].
Qed.

(** X14.  The dispatch neither invents nor hides a failure: an exception
    it raises is the exception of some location of the batch, and when
    some location fails it raises and returns no list. *)
Theorem dispatch_failure_provenance :
  forall (files : list string) (feature_ids : list FeatureID),
    (forall e, run_dispatch files feature_ids = Raise e ->
       exists file_url,
         In file_url files /\ process file_url feature_ids = Raise e) /\
    (forall file_url e,
       In file_url files -> process file_url feature_ids = Raise e ->
       exists e', run_dispatch files feature_ids = Raise e').
Proof.
  intros files ids. unfold dispatch, Parallel. split.
  - intros e H. apply sequence_Raise_In in H. apply in_map_iff in H.
    destruct H as (u & Hu & Hin). exists u. split; assumption.
  - intros u e Hin Hu. apply (@sequence_In_Raise _ _ e).
    apply in_map_iff. exists u. split; assumption.
Qed.

(** X16.  A feature missing from one header fails the whole batch: when
    every header resolves to a view with distinct labels and some view
    lacks a requested identifier, the dispatch and the cell raise
    [KeyError], and no row of the other locations is returned. *)
Theorem pipeline_missing_feature_raises :
  forall (files : list string) (feature_ids : list FeatureID)
         (view_of : string -> Dataset) (file_url : string) (id : FeatureID),
    (forall u, In u files ->
       (json_obj <- load_json u ;; load_ds json_obj) = Ok (view_of u) /\
       is_unique (feature_id_coord (view_of u)) = true) ->
    In file_url files ->
    In id feature_ids ->
    ~ In id (feature_id_coord (view_of file_url)) ->
    run_dispatch files feature_ids = Raise KeyError /\
    run_pipeline files feature_ids = Raise KeyError.
Proof.
  intros files ids view_of u0 id H Hu0 Hid Hno.
  assert (D : run_dispatch files ids = Raise KeyError).
  { unfold dispatch, Parallel. apply sequence_single_kind.
    - apply Forall_forall. intros m Hm. apply in_map_iff in Hm.
      destruct Hm as (u & <- & Hu). destruct (H u Hu) as (E & HU).
      rewrite process_file_chain, E. simpl.
      rewrite select_flow_unfold, HU.
      destruct (lookup_labels (streamflow (view_of u)) ids) as [vs|].
      + left. eexists. reflexivity.
      + right. reflexivity.
    - apply in_map_iff. exists u0. split; [|exact Hu0].
      destruct (H u0 Hu0) as (E & HU).
      rewrite process_file_chain, E. simpl.
      rewrite select_flow_unfold, HU.
      unfold feature_id_coord in Hno.
      rewrite (@lookup_labels_missing _ _ _ Hid Hno). reflexivity. }
  split; [exact D|]. unfold pipeline. rewrite D. reflexivity.
Qed.

End PipelineFurther.

Lemma pipeline_missing_feature_raises_witness :
  let files := ["u0"; "u1"]%string in
  (forall u, In u files ->
     (json_obj <- load_remote_json demo_open demo_load u ;;
      load_remote_ds demo_dataset json_obj) = Ok (demo_view_of u) /\
     is_unique (feature_id_coord (demo_view_of u)) = true) /\
  In "u1"%string files /\ In 999 [10; 999] /\
  ~ In 999 (feature_id_coord (demo_view_of "u1")) /\
  dispatch demo_open demo_load demo_dataset files [10; 999] = Raise KeyError /\
  pipeline demo_open demo_load demo_dataset files [10; 999] = Raise KeyError.
Proof.
  intros files.
  assert (H : forall u, In u files ->
     (json_obj <- load_remote_json demo_open demo_load u ;;
      load_remote_ds demo_dataset json_obj) = Ok (demo_view_of u) /\
     is_unique (feature_id_coord (demo_view_of u)) = true).
  { intros u [<-|[<-|[]]]; split; reflexivity. }
  assert (Hu : In "u1"%string files) by (right; left; reflexivity).
  assert (Hid : In 999 [10; 999]) by (right; left; reflexivity).
  assert (Hno : ~ In 999 (feature_id_coord (demo_view_of "u1"))).
  { simpl. intros [E|[E|E]]; [discriminate | discriminate | exact E]. }
  split; [exact H|]. split; [exact Hu|]. split; [exact Hid|].
  split; [exact Hno|].
  exact (@pipeline_missing_feature_raises
           string string demo_open demo_load demo_dataset
           files [10; 999] demo_view_of "u1"%string 999 H Hu Hid Hno).
Defined.

Lemma dispatch_failure_provenance_witness :
  let files := ["u0"; "missing"; "u2"]%string in
  In "missing"%string files /\
  process_file demo_open demo_load demo_dataset "missing" [10]
  = Raise OSError /\
  exists e', dispatch demo_open demo_load demo_dataset files [10] = Raise e'.
Proof.
  intros files.
  assert (Hin : In "missing"%string files) by (right; left; reflexivity).
  assert (Hf : process_file demo_open demo_load demo_dataset "missing" [10]
               = Raise OSError) by reflexivity.
  split; [exact Hin|]. split; [exact Hf|].
  exact (proj2 (@dispatch_failure_provenance
                  string string demo_open demo_load demo_dataset files [10])
               "missing"%string OSError Hin Hf).
Defined.

(** ** The plotted series *)

Lemma lookup_labels_Some_Forall2 (da : list (FeatureID * Flow))
  (labels : list FeatureID) (vs : list Flow) :
  lookup_labels da labels = Some vs ->
  Forall2 (fun id v => In (id, v) da) labels vs.
Proof.
  revert vs. induction labels as [|l ls IH]; simpl; intros vs H.
  - injection H as <-. constructor.
  - destruct (lookup_label da l) as [v|] eqn:L; [|discriminate].
    destruct (lookup_labels da ls) as [vs'|]; [|discriminate].
    injection H as <-. constructor.
    + apply lookup_label_Some, L.
    + apply IH. reflexivity.
Qed.

Lemma select_flow_Ok_Forall2 (ds : Dataset) (ids : list FeatureID)
  (row : list Flow) :
  select_flow ds ids = Ok row ->
  Forall2 (fun id v => In (id, v) (streamflow ds)) ids row.
Proof.
  rewrite select_flow_unfold.
  destruct (is_unique (feature_id_coord ds)); [|discriminate].
  destruct (lookup_labels (streamflow ds) ids) as [vs|] eqn:L;
    [|discriminate].
  intros H. injection H as <-. apply lookup_labels_Some_Forall2, L.
Qed.

Lemma Forall2_nth_error {A B : Type} (R : A -> B -> Prop)
  (l : list A) (l' : list B) :
  Forall2 R l l' ->
  forall k a, nth_error l k = Some a ->
    exists b, nth_error l' k = Some b /\ R a b.
Proof.
  induction 1 as [|x y l l' Hxy _ IH]; intros [|k] a H; simpl in *;
    try discriminate.
  - injection H as <-. exists y. split; [reflexivity | exact Hxy].
  - apply IH, H.
Qed.

Lemma column_nth_error {A : Type} (k : nat) (rows : list (list A)) :
  Forall (fun r => exists v, nth_error r k = Some v) rows ->
  List.length (column k rows) = List.length rows /\
  forall i row, nth_error rows i = Some row ->
    nth_error (column k rows) i = nth_error row k.
Proof.
  unfold column. induction 1 as [|r rows (v & Hv) _ [IHl IHn]]; simpl.
  - split; [reflexivity|]. intros [|i] row H; discriminate.
  - rewrite Hv. simpl. split; [f_equal; exact IHl|].
    intros [|i] row H; simpl in *.
    + injection H as <-. symmetry. exact Hv.
    + apply IHn, H.
Qed.

Lemma nth_error_combine_seq {A : Type} (l : list A) (a n k : nat) (x : A) :
  (List.length l <= n)%nat ->
  nth_error l k = Some x ->
  nth_error (combine (seq a n) l) k = Some ((a + k)%nat, x).
Proof.
  revert a n k. induction l as [|y l IH]; intros a n k Hn H.
  - destruct k; discriminate.
  - destruct n as [|n]; simpl in Hn; [lia|].
    destruct k as [|k]; simpl in *.
    + injection H as <-. rewrite Nat.add_0_r. reflexivity.
    + rewrite (IH (S a) n k) by (lia || exact H).
      f_equal. f_equal. lia.
Qed.

Lemma map_snd_combine_seq {A : Type} (l : list A) (a : nat) :
  map snd (combine (seq a (List.length l)) l) = l.
Proof.
  revert a. induction l as [|y l IH]; intros a; simpl.
  - reflexivity.
  - rewrite IH. reflexivity.
Qed.

(** X17.  What the plot shows for rows obtained by selecting the same
    identifiers, at least two of them, on a non-empty sequence of views:
    one series per requested identifier, labelled with it in the order
    requested, with one point per view; the point at position [i] of the
    series of [id] is the streamflow of [id] in the [i]-th view. *)
Theorem plotted_series_of_selections :
  forall (feature_ids : list FeatureID) (views : list Dataset)
         (Streamflow : list (list Flow)),
    (2 <= List.length feature_ids)%nat ->
    views <> [] ->
    Forall2 (fun ds row => select_flow ds feature_ids = Ok row)
            views Streamflow ->
    map fst (plotted_series feature_ids Streamflow) = feature_ids /\
    forall k id i ds,
      nth_error feature_ids k = Some id ->
      nth_error views i = Some ds ->
      exists series v,
        nth_error (plotted_series feature_ids Streamflow) k
        = Some (id, series) /\
        List.length series = List.length views /\
        nth_error series i = Some v /\
        In (id, v) (streamflow ds).
Proof.
  intros ids views S _ _ H. split.
  - unfold plotted_series. rewrite map_map. simpl.
    apply map_snd_combine_seq.
  - intros k id i ds Hk Hi.
    destruct (Forall2_nth_error H _ Hi) as (row & Hrow & Hsel).
    pose proof (select_flow_Ok_Forall2 _ _ Hsel) as F.
    destruct (Forall2_nth_error F _ Hk) as (v & Hv & Hin).
    assert (C : Forall (fun r => exists w, nth_error r k = Some w) S).
    { apply Forall_forall. intros r Hr.
      apply In_nth_error in Hr. destruct Hr as (j & Hj).
      assert (exists ds', nth_error views j = Some ds') as (ds' & Hds').
      { destruct (nth_error views j) as [d|] eqn:E; [eauto|].
        apply nth_error_None in E.
        pose proof (Forall2_length H) as L.
        assert (HS : nth_error S j <> None) by congruence.
        apply nth_error_Some in HS. lia. }
      destruct (Forall2_nth_error H _ Hds') as (r' & Hr' & Hsel').
      assert (r' = r) by congruence. subst r'.
      pose proof (select_flow_Ok_Forall2 _ _ Hsel') as F'.
      destruct (Forall2_nth_error F' _ Hk) as (w & Hw & _).
      exists w. exact Hw. }
    destruct (@column_nth_error Flow k S C) as [CL CN].
    exists (column k S), v. split; [|split; [|split]].
    + unfold plotted_series. rewrite nth_error_map.
      rewrite (@nth_error_combine_seq _ ids 0 (List.length ids) k id)
        by (lia || exact Hk).
      reflexivity.
    + rewrite CL. symmetry. apply (Forall2_length H).
    + rewrite (CN i row Hrow). exact Hv.
    + exact Hin.
Qed.

Lemma plotted_series_of_selections_witness :
  let views := [demo_view 1.0%float 2.0%float 0;
                demo_view 1.1%float 2.1%float 3600] in
  let Streamflow := [[2.0; 1.0]; [2.1; 1.1]]%float in
  (2 <= List.length [20; 10])%nat /\
  views <> [] /\
  Forall2 (fun ds row => select_flow ds [20; 10] = Ok row)
          views Streamflow /\
  map fst (plotted_series [20; 10] Streamflow) = [20; 10].
Proof.
  intros views Streamflow.
  assert (H : Forall2 (fun ds row => select_flow ds [20; 10] = Ok row)
                      views Streamflow).
  { repeat constructor. }
  assert (H2 : (2 <= List.length [20; 10])%nat) by apply le_n.
  assert (HV : views <> []) by discriminate.
  split; [exact H2|]. split; [exact HV|]. split; [exact H|].
  exact (proj1 (@plotted_series_of_selections [20; 10] views Streamflow
                  H2 HV H)).
Defined.

(** ** The assembly when a timestamp may be NaT *)

Lemma decorate64_Ok (l : list ExtractionResult64) :
  Forall (fun x => snd x <> []) l -> decorate64 l = Ok (map keyed64 l).
Proof.
  intros H. unfold decorate64. apply sequence_map_Ok.
  intros [v ts] Hin. rewrite Forall_forall in H. specialize (H _ Hin).
  unfold sort_key64, keyed64. simpl in *.
  destruct ts as [|t ts]; [congruence | reflexivity].
Qed.

Lemma decorate64_Raise (l : list ExtractionResult64) :
  Exists (fun x => snd x = []) l -> decorate64 l = Raise IndexError.
Proof.
  unfold decorate64.
  induction l as [|[v ts] l IH]; intros H.
  - inversion H.
  - simpl. unfold sort_key64 at 1. simpl.
    destruct ts as [|t ts]; simpl.
    + reflexivity.
    + apply Exists_cons in H. destruct H as [H|H]; [discriminate|].
      rewrite (IH H). reflexivity.
Qed.

Lemma assemble64_Raise (l : list ExtractionResult64) :
  Exists (fun x => snd x = []) l -> assemble64 l = Raise IndexError.
Proof.
  intros H. unfold assemble64, sorted64. rewrite (decorate64_Raise H).
  reflexivity.
Qed.

Lemma starts_with_instant_nonempty (l : list ExtractionResult64) :
  Forall starts_with_instant l -> Forall (fun x => snd x <> []) l.
Proof.
  apply Forall_impl. intros x (ns & rest & E). rewrite E. discriminate.
Qed.

Lemma instants_keyed64 (l : list ExtractionResult64) :
  Forall starts_with_instant l ->
  instants (map keyed64 l) = Some (map keyed_ns l).
Proof.
  induction 1 as [|[v ts] l (ns & rest & E) _ IH].
  - reflexivity.
  - simpl in E. subst ts. cbn [map].
    change (keyed64 (v, Instant ns :: rest))
      with (Instant ns, ((v, Instant ns :: rest) : ExtractionResult64)).
    cbn [instants]. rewrite IH. reflexivity.
Qed.

Lemma sorted64_Ok (l : list ExtractionResult64) :
  Forall starts_with_instant l ->
  sorted64 l = Ok (map snd (sort_keyed (map keyed_ns l))).
Proof.
  intros H. unfold sorted64.
  rewrite (decorate64_Ok (starts_with_instant_nonempty H)). simpl.
  rewrite (instants_keyed64 H). reflexivity.
Qed.

Lemma assemble64_Ok (l : list ExtractionResult64) :
  Forall starts_with_instant l ->
  assemble64 l
  = Ok (map fst (map snd (sort_keyed (map keyed_ns l))),
        map snd (map snd (sort_keyed (map keyed_ns l)))).
Proof.
  intros H. unfold assemble64. rewrite (sorted64_Ok H). reflexivity.
Qed.

Lemma sorted64_Permutation (l : list ExtractionResult64) :
  Permutation l (map snd (sort_keyed (map keyed_ns l))).
Proof.
  assert (E : map snd (map keyed_ns l) = l).
  { rewrite map_map. simpl. apply map_id. }
  rewrite <- E at 1.
  apply Permutation_map, Permutation_sym, sort_keyed_Permutation.
Qed.

Lemma keyed_ns_consistent (l : list ExtractionResult64) :
  Forall (fun p => first_ns (snd p) = fst p) (sort_keyed (map keyed_ns l)).
Proof.
  eapply Permutation_Forall.
  - apply Permutation_sym, sort_keyed_Permutation.
  - apply Forall_forall. intros p Hp. apply in_map_iff in Hp.
    destruct Hp as (x & <- & _). reflexivity.
Qed.

Lemma map_first_ns_sorted (l : list ExtractionResult64) :
  map first_ns (map snd (sort_keyed (map keyed_ns l)))
  = map fst (sort_keyed (map keyed_ns l)).
Proof.
  pose proof (keyed_ns_consistent l) as H.
  revert H. generalize (sort_keyed (map keyed_ns l)). intros kl H.
  induction H as [|p t Hp _ IH]; cbn [map].
  - reflexivity.
  - f_equal; assumption.
Qed.

Lemma sorted64_first_ns (l : list ExtractionResult64) :
  StronglySorted Z.le
    (map first_ns (map snd (sort_keyed (map keyed_ns l)))).
Proof.
  rewrite map_first_ns_sorted. apply sort_keyed_sorted.
Qed.

Lemma concat_single_instant (l : list ExtractionResult64) :
  Forall (fun x => exists ns, snd x = [Instant ns]) l ->
  List.concat (map snd l) = map Instant (map first_ns l).
Proof.
  induction 1 as [|[v ts] l (ns & E) _ IH]; simpl.
  - reflexivity.
  - simpl in E. subst ts. rewrite IH. reflexivity.
Qed.

Lemma single_instant_starts (l : list ExtractionResult64) :
  Forall (fun x => exists ns, snd x = [Instant ns]) l ->
  Forall starts_with_instant l.
Proof.
  apply Forall_impl. intros x (ns & E). exists ns, []. exact E.
Qed.

Lemma nth_error_map_Some {A B : Type} (f : A -> B) (l : list A) (i : nat)
  (y : B) :
  nth_error (map f l) i = Some y ->
  exists x, nth_error l i = Some x /\ f x = y.
Proof.
  revert i. induction l as [|a l IH]; intros [|i] H; simpl in *;
    try discriminate.
  - injection H as <-. exists a. split; reflexivity.
  - apply IH, H.
Qed.

(** C2 as stated fails: each of the three results below carries one
    timestep; the middle one is NaT, no comparison made by the sort
    answers True, the list is returned as gathered, and 20 comes before
    10 in the assembled timestamps. *)
Lemma assembled_timestamps_NaT_counterexample :
  let result_values : list ExtractionResult64 :=
    [([1%float], [Instant 20]); ([2%float], [NaT]);
     ([3%float], [Instant 10])] in
  Forall (fun x => List.length (snd x) = 1%nat) result_values /\
  exists Streamflow Timestamp,
    assemble64 result_values = Ok (Streamflow, Timestamp) /\
    Timestamp = [[Instant 20]; [NaT]; [Instant 10]] /\
    ~ (forall i j ti tj, (i < j)%nat ->
         nth_error (List.concat Timestamp) i = Some ti ->
         nth_error (List.concat Timestamp) j = Some tj ->
         dt_leb ti tj = true).
Proof.
  intros result_values. split; [repeat constructor|].
  eexists. eexists. split; [reflexivity|]. split; [reflexivity|].
  intros H.
  specialize (H 0%nat 2%nat (Instant 20) (Instant 10)
                (le_n_S _ _ (le_S _ _ (le_n _))) eq_refl eq_refl).
  discriminate.
Qed.

(** C2, amended.  When every gathered result carries exactly one timestep
    and that timestep is not NaT, the assembly succeeds, the assembled
    timestamp sequence is a rearrangement of the gathered timestamps,
    and it is non-decreasing: the entry at position [i] is at most the
    entry at any later position [j]. *)
Theorem assembled_instants_nondecreasing :
  forall result_values : list ExtractionResult64,
    Forall (fun x => exists ns, snd x = [Instant ns]) result_values ->
    exists Streamflow Timestamp,
      assemble64 result_values = Ok (Streamflow, Timestamp) /\
      Permutation (List.concat Timestamp)
                  (List.concat (map snd result_values)) /\
      forall i j ti tj, (i < j)%nat ->
        nth_error (List.concat Timestamp) i = Some ti ->
        nth_error (List.concat Timestamp) j = Some tj ->
        dt_leb ti tj = true.
Proof.
  intros l H1.
  pose proof (single_instant_starts H1) as HS.
  rewrite (assemble64_Ok HS).
  eexists. eexists. split; [reflexivity|].
  pose proof (sorted64_Permutation l) as P.
  assert (H1' : Forall (fun x : ExtractionResult64 =>
                          exists ns, snd x = [Instant ns])
                       (map snd (sort_keyed (map keyed_ns l)))).
  { eapply Permutation_Forall; [exact P | exact H1]. }
  rewrite (concat_single_instant H1'), (concat_single_instant H1).
  split.
  - apply Permutation_map, Permutation_map, Permutation_sym, P.
  - intros i j ti tj Hij Hi Hj.
    apply nth_error_map_Some in Hi. destruct Hi as (a & Ea & <-).
    apply nth_error_map_Some in Hj. destruct Hj as (b & Eb & <-).
    simpl. apply Z.leb_le.
    exact (StronglySorted_nth_error (sorted64_first_ns l) Hij Ea Eb).
Qed.

Lemma assembled_instants_nondecreasing_witness :
  let result_values : list ExtractionResult64 :=
    [([3%float], [Instant 30]); ([1%float], [Instant 10]);
     ([2%float], [Instant 20])] in
  Forall (fun x => exists ns, snd x = [Instant ns]) result_values /\
  exists Streamflow Timestamp,
    assemble64 result_values = Ok (Streamflow, Timestamp) /\
    Permutation (List.concat Timestamp)
                (List.concat (map snd result_values)) /\
    forall i j ti tj, (i < j)%nat ->
      nth_error (List.concat Timestamp) i = Some ti ->
      nth_error (List.concat Timestamp) j = Some tj ->
      dt_leb ti tj = true.
Proof.
  intros result_values.
  assert (H : Forall (fun x : ExtractionResult64 =>
                        exists ns, snd x = [Instant ns]) result_values).
  { repeat constructor; eexists; reflexivity. }
  split; [exact H|].
  exact (@assembled_instants_nondecreasing result_values H).
Defined.

Lemma with_key_map_snd64 (k : Z) (kl : list (Z * ExtractionResult64)) :
  Forall (fun p => starts_at k (snd p) = (fst p =? k)) kl ->
  map snd (with_key k kl) = filter (starts_at k) (map snd kl).
Proof.
  unfold with_key. induction 1 as [|p t Hp _ IH]; cbn [map filter].
  - reflexivity.
  - rewrite <- IH. destruct p as [k' x]. simpl in Hp. simpl.
    rewrite Hp. destruct (k' =? k); reflexivity.
Qed.

Lemma starts_at_keyed_ns (k : Z) (l : list ExtractionResult64) :
  Forall starts_with_instant l ->
  Forall (fun p => starts_at k (snd p) = (fst p =? k)) (map keyed_ns l).
Proof.
  intros H. apply Forall_map. eapply Forall_impl; [|exact H].
  intros [v ts] (ns & rest & E). simpl in E. subst ts. reflexivity.
Qed.

(** X7.  On results whose first timestamps are not NaT the sort is
    stable: among the results that share a first timestamp, the sorted
    list keeps the order in which they were gathered. *)
Theorem sorted64_is_stable :
  forall result_values : list ExtractionResult64,
    Forall starts_with_instant result_values ->
    exists sorted_values,
      sorted64 result_values = Ok sorted_values /\
      forall k : Z,
        filter (starts_at k) sorted_values
        = filter (starts_at k) result_values.
Proof.
  intros l HS. exists (map snd (sort_keyed (map keyed_ns l))).
  split; [apply sorted64_Ok, HS|]. intros k.
  transitivity (map snd (with_key k (sort_keyed (map keyed_ns l)))).
  - symmetry. apply with_key_map_snd64.
    eapply Permutation_Forall.
    + apply Permutation_sym, sort_keyed_Permutation.
    + apply starts_at_keyed_ns, HS.
  - rewrite sort_keyed_stable.
    transitivity (filter (starts_at k) (map snd (map keyed_ns l))).
    + apply with_key_map_snd64, starts_at_keyed_ns, HS.
    + rewrite map_map. simpl. rewrite map_id. reflexivity.
Qed.

Lemma sorted64_is_stable_witness :
  let result_values : list ExtractionResult64 :=
    [([3%float], [Instant 7]); ([1%float], [Instant 7; NaT]);
     ([2%float], [Instant 4])] in
  Forall starts_with_instant result_values /\
  exists sorted_values,
    sorted64 result_values = Ok sorted_values /\
    forall k : Z,
      filter (starts_at k) sorted_values
      = filter (starts_at k) result_values.
Proof.
  intros result_values.
  assert (HS : Forall starts_with_instant result_values).
  { repeat constructor; eexists; eexists; reflexivity. }
  split; [exact HS|].
  exact (@sorted64_is_stable result_values HS).
Defined.

(** X8.  Whatever the number of timesteps per result, when the first
    timestamp of every result is present and not NaT, the assembly
    succeeds, every row of [Timestamp] starts with an instant and these
    first instants are non-decreasing. *)
Theorem assembled64_first_timestamps_sorted :
  forall result_values : list ExtractionResult64,
    Forall starts_with_instant result_values ->
    exists Streamflow Timestamp,
      assemble64 result_values = Ok (Streamflow, Timestamp) /\
      Forall (fun row => exists ns rest, row = Instant ns :: rest)
             Timestamp /\
      StronglySorted Z.le (map row_first_ns Timestamp).
Proof.
  intros l HS. rewrite (assemble64_Ok HS).
  eexists. eexists. split; [reflexivity|]. split.
  - apply Forall_map.
    eapply Permutation_Forall; [apply sorted64_Permutation | exact HS].
  - rewrite map_map. apply (sorted64_first_ns l).
Qed.

Lemma assembled64_first_timestamps_sorted_witness :
  let result_values : list ExtractionResult64 :=
    [([3%float], [Instant 30; Instant 31]); ([1%float], [Instant 10; NaT]);
     ([2%float], [Instant 20])] in
  Forall starts_with_instant result_values /\
  exists Streamflow Timestamp,
    assemble64 result_values = Ok (Streamflow, Timestamp) /\
    Forall (fun row => exists ns rest, row = Instant ns :: rest)
           Timestamp /\
    StronglySorted Z.le (map row_first_ns Timestamp).
Proof.
  intros result_values.
  assert (HS : Forall starts_with_instant result_values).
  { repeat constructor; eexists; eexists; reflexivity. }
  split; [exact HS|].
  exact (@assembled64_first_timestamps_sorted result_values HS).
Defined.





(** The definitions on proper instants are the restriction of this
    layer: the assembly of results without NaT is the assembly of
    [assemble], with its timestamps read as instants. *)
Lemma insert_keyed_map_payload {A B : Type} (f : A -> B) (k : Z) (x : A)
  (l : list (Z * A)) :
  insert_keyed k (f x) (map (fun p => (fst p, f (snd p))) l)
  = map (fun p => (fst p, f (snd p))) (insert_keyed k x l).
Proof.
  induction l as [|[k' y] t IH]; simpl.
  - reflexivity.
  - destruct (k <=? k'); simpl; [reflexivity | rewrite IH; reflexivity].
Qed.

Lemma sort_keyed_map_payload {A B : Type} (f : A -> B) (l : list (Z * A)) :
  sort_keyed (map (fun p => (fst p, f (snd p))) l)
  = map (fun p => (fst p, f (snd p))) (sort_keyed l).
Proof.
  induction l as [|[k x] t IH]; simpl.
  - reflexivity.
  - rewrite IH. apply insert_keyed_map_payload.
Qed.

Lemma first_ns_with_instants (x : ExtractionResult) :
  first_ns (with_instants x) = first_time x.
Proof.
  destruct x as [v [|t ts]]; reflexivity.
Qed.

Lemma assemble64_with_instants (l : list ExtractionResult) :
  assemble64 (map with_instants l)
  = match assemble l with
    | Ok (Streamflow, Timestamp) =>
        Ok (Streamflow, map (map Instant) Timestamp)
    | Raise e => Raise e
    end.
Proof.
  destruct (timestamps_present_or_missing l) as [NE|EM].
  - rewrite (assemble_Ok NE).
    assert (HS : Forall starts_with_instant (map with_instants l)).
    { apply Forall_map. eapply Forall_impl; [|exact NE].
      intros [v [|t ts]] H; simpl in H; [congruence|].
      exists t, (map Instant ts). reflexivity. }
    rewrite (assemble64_Ok HS).
    assert (E : map keyed_ns (map with_instants l)
                = map (fun p => (fst p, with_instants (snd p)))
                      (map keyed l)).
    { rewrite !map_map. apply map_ext. intros x.
      unfold keyed_ns, keyed. simpl.
      rewrite first_ns_with_instants. reflexivity. }
    rewrite E, sort_keyed_map_payload, !map_map. reflexivity.
  - rewrite (assemble_Raise EM). apply assemble64_Raise.
    apply Exists_exists in EM. destruct EM as (x & Hx & E).
    apply Exists_exists. exists (with_instants x). split.
    + apply in_map, Hx.
    + unfold with_instants. simpl. rewrite E. reflexivity.
Qed.

(** ** The whole cell when a time value may be NaT *)

Section Pipeline64Facts.
Variables Bytes Json : Type.
Variable fsspec_open : string -> result Bytes.
Variable ujson_load : Bytes -> result Json.
Variable xr_open_dataset64 : Json -> result Dataset64.

Local Abbreviation load_json := (load_remote_json fsspec_open ujson_load).
Local Abbreviation load_ds64 := (load_remote_ds64 xr_open_dataset64).
Local Abbreviation process64 :=
  (process_file64 fsspec_open ujson_load xr_open_dataset64).
Local Abbreviation run_dispatch64 :=
  (dispatch64 fsspec_open ujson_load xr_open_dataset64).
Local Abbreviation run_pipeline64 :=
  (pipeline64 fsspec_open ujson_load xr_open_dataset64).

Lemma process_file64_chain (file_url : string)
  (feature_id : list FeatureID) :
  process64 file_url feature_id
  = (ds <- (json_obj <- load_json file_url ;; load_ds64 json_obj) ;;
     values <- select_flow64 ds feature_id ;;
     Ok (values, select_time64 ds)).
Proof.
  unfold process_file64.
  destruct (load_json file_url) as [j|e]; simpl; reflexivity.
Qed.

Lemma select_flow64_present (ds : Dataset64) (ids : list FeatureID) :
  is_unique (map fst (streamflow64 ds)) = true ->
  incl ids (map fst (streamflow64 ds)) ->
  exists values, select_flow64 ds ids = Ok values.
Proof.
  intros HU HI. unfold select_flow64, sel. rewrite HU.
  destruct (lookup_labels_present (streamflow64 ds) HI) as (vs & E & _).
  rewrite E. exists vs. reflexivity.
Qed.

(** X15.  The whole cell on any number of locations: when every header
    resolves to a view with distinct labels that holds the requested
    identifiers and whose first time value is present and not NaT, the
    cell returns one row per location, the rows being the locations'
    selections and time values taken in an order of the locations in
    which the first time values are non-decreasing. *)
Theorem pipeline64_end_to_end :
  forall (files : list string) (feature_ids : list FeatureID)
         (view_of : string -> Dataset64),
    (forall u, In u files ->
       (json_obj <- load_json u ;; load_ds64 json_obj) = Ok (view_of u) /\
       is_unique (map fst (streamflow64 (view_of u))) = true /\
       incl feature_ids (map fst (streamflow64 (view_of u))) /\
       exists ns rest, time64 (view_of u) = Instant ns :: rest) ->
    exists (order : list string) (values_of : string -> list Flow),
      Permutation files order /\
      (forall u, In u files ->
         select_flow64 (view_of u) feature_ids = Ok (values_of u)) /\
      run_pipeline64 files feature_ids
      = Ok (map values_of order, map (fun u => time64 (view_of u)) order) /\
      StronglySorted Z.le
        (map (fun u => row_first_ns (time64 (view_of u))) order).
Proof.
  intros files ids view_of H.
  set (values_of := fun u => match select_flow64 (view_of u) ids with
                             | Ok v => v
                             | Raise _ => []
                             end).
  set (g := fun u => (values_of u, time64 (view_of u)) : ExtractionResult64).
  assert (HS : forall u, In u files ->
                 select_flow64 (view_of u) ids = Ok (values_of u)).
  { intros u Hu. destruct (H u Hu) as (_ & HU & HI & _).
    destruct (select_flow64_present _ HU HI) as (v & E).
    unfold values_of. rewrite E. reflexivity. }
  assert (HP : forall u, In u files -> process64 u ids = Ok (g u)).
  { intros u Hu. destruct (H u Hu) as (E & _).
    rewrite process_file64_chain, E. simpl. rewrite (HS u Hu). reflexivity. }
  assert (D : run_dispatch64 files ids = Ok (map g files)).
  { unfold dispatch64, Parallel. apply sequence_map_Ok, HP. }
  assert (SI : Forall starts_with_instant (map g files)).
  { apply Forall_forall. intros x Hx. apply in_map_iff in Hx.
    destruct Hx as (u & <- & Hu). apply (H u Hu). }
  pose proof (sorted64_Permutation (map g files)) as P.
  apply Permutation_sym, Permutation_map_inv in P.
  destruct P as (order & E & P).
  exists order, values_of. split; [exact P|]. split; [exact HS|]. split.
  - unfold pipeline64. rewrite D. simpl. rewrite (assemble64_Ok SI), E.
    rewrite !map_map. reflexivity.
  - pose proof (sorted64_first_ns (map g files)) as SS.
    rewrite E, map_map in SS. exact SS.
Qed.

End Pipeline64Facts.

Lemma pipeline64_end_to_end_witness :
  let files := ["u2"; "u0"; "u1"]%string in
  (forall u, In u files ->
     (json_obj <- load_remote_json demo_open demo_load u ;;
      load_remote_ds64 demo_dataset64 json_obj) = Ok (demo_view64_of u) /\
     is_unique (map fst (streamflow64 (demo_view64_of u))) = true /\
     incl [20; 10] (map fst (streamflow64 (demo_view64_of u))) /\
     exists ns rest, time64 (demo_view64_of u) = Instant ns :: rest) /\
  exists (order : list string) (values_of : string -> list Flow),
    Permutation files order /\
    (forall u, In u files ->
       select_flow64 (demo_view64_of u) [20; 10] = Ok (values_of u)) /\
    pipeline64 demo_open demo_load demo_dataset64 files [20; 10]
    = Ok (map values_of order,
          map (fun u => time64 (demo_view64_of u)) order) /\
    StronglySorted Z.le
      (map (fun u => row_first_ns (time64 (demo_view64_of u))) order).
Proof.
  intros files.
  assert (H : forall u, In u files ->
     (json_obj <- load_remote_json demo_open demo_load u ;;
      load_remote_ds64 demo_dataset64 json_obj) = Ok (demo_view64_of u) /\
     is_unique (map fst (streamflow64 (demo_view64_of u))) = true /\
     incl [20; 10] (map fst (streamflow64 (demo_view64_of u))) /\
     exists ns rest, time64 (demo_view64_of u) = Instant ns :: rest).
  { assert (I : incl [20; 10] [10; 20]).
    { intros x [<-|[<-|[]]]; simpl; [right; left | left]; reflexivity. }
    intros u [<-|[<-|[<-|[]]]];
      (split; [reflexivity|]; split; [reflexivity|];
       split; [exact I | eexists; eexists; reflexivity]). }
  split; [exact H|].
  exact (@pipeline64_end_to_end string string demo_open demo_load
           demo_dataset64 files [20; 10] demo_view64_of H).
Defined.

(** ** With a NaT key: nothing is lost *)

Section ListSortFacts.
Variables (K A : Type) (lt : K -> K -> bool).



End ListSortFacts.



